(** * LIBHGP, IOFunctions: data model, dataset loader, model serializer

    Shallow embedding of the input/output layer of LIBHGP
    ([include/IOFunctions.h]).  The header fixes the data structures
    ([gp_sample], [gp_dataset], [model]) and the signatures of the public
    operations; the bodies of the operations are given by the specification
    of the library and are marked as such below.

    Representation choices.
    - A C [double] is kept as the decimal literal through which it travels in
      the text formats: a signed integer part and the digits after the decimal
      point ([double] below).  Its numerical value is a rational number
      ([Q_of_double]); squared norms are computed in [Q].
    - A C [int] is a [Z].
    - A C array that the code reads up to a known length is a [list]; the
      feature arena is a [list gp_sample] in which every sample is closed by a
      sentinel whose index is [-1], and the pointer array [x] is the list of
      the offsets of the first feature of each sample in the arena.
    - A text file is a [string]; a file system maps file names to contents. *)

From Stdlib Require Import ZArith QArith List String Ascii Bool Lia.
From Stdlib Require Import Decimal DecimalString DecimalZ DecimalPos.
Import ListNotations.

Local Open Scope nat_scope.
Local Open Scope list_scope.

(** ** Characters *)

Definition newline : ascii := "010"%char.

Definition is_space (a : ascii) : bool :=
  Ascii.eqb a " " || Ascii.eqb a "009" || Ascii.eqb a newline
  || Ascii.eqb a "013".

Definition is_digit (a : ascii) : bool :=
  match a with
  | "0" | "1" | "2" | "3" | "4" | "5" | "6" | "7" | "8" | "9" => true
  | _ => false
  end%char.

Fixpoint all_chars (p : ascii -> bool) (s : string) : bool :=
  match s with
  | EmptyString => true
  | String a r => p a && all_chars p r
  end.

Definition not_char (c : ascii) (a : ascii) : bool := negb (Ascii.eqb a c).

(** Splits [s] at the first occurrence of [c] ([strchr]). *)
Fixpoint split_on (c : ascii) (s : string) : string * option string :=
  match s with
  | EmptyString => (EmptyString, None)
  | String a r =>
      if Ascii.eqb a c then (EmptyString, Some r)
      else let (u, v) := split_on c r in (String a u, v)
  end.

(** ** Whitespace tokenizer ([strtok] with the separators of the formats) *)

Definition cons_word (w : string) (ws : list string) : list string :=
  match w with EmptyString => ws | _ => w :: ws end.

Fixpoint tok (s : string) : string * list string :=
  match s with
  | EmptyString => (EmptyString, [])
  | String a r =>
      let (w, ws) := tok r in
      if is_space a then (EmptyString, cons_word w ws) else (String a w, ws)
  end.

Definition words (s : string) : list string :=
  let (w, ws) := tok s in cons_word w ws.

(** Splits a text into its newline-separated segments; a text that ends in a
    newline has an empty last segment, which the loader skips as blank. *)
Fixpoint lines_aux (s : string) : string * list string :=
  match s with
  | EmptyString => (EmptyString, [])
  | String a r =>
      let (l, ls) := lines_aux r in
      if Ascii.eqb a newline then (EmptyString, l :: ls) else (String a l, ls)
  end.

Definition lines (s : string) : list string :=
  let (l, ls) := lines_aux s in l :: ls.

Definition blank (line : string) : bool :=
  match words line with [] => true | _ => false end.

(** ** Integers in text: [%d] and [atoi]/[strtol] *)

Definition show_int (z : Z) : string := NilZero.string_of_int (Z.to_int z).

Definition parse_int (s : string) : option Z :=
  option_map Z.of_int (NilZero.int_of_string s).

(** ** Doubles in text *)

(** A [double] as a decimal literal: integer part (with its sign) and the
    digits after the decimal point ([Nil] when there is no point). *)
Record double := mkDouble { dint : Decimal.int; dfrac : uint }.

Definition show_double (d : double) : string :=
  match dfrac d with
  | Nil => NilZero.string_of_int (dint d)
  | f => (NilZero.string_of_int (dint d) ++ String "." (NilEmpty.string_of_uint f))%string
  end.

(** The literal after its sign: an integer part (digits, after a '-' for a
    negative number), then optionally a point and the digits after it. *)
Definition parse_decimal (s : string) : option double :=
  match split_on "." s with
  | (ip, None) =>
      match NilZero.int_of_string ip with
      | Some i => Some (mkDouble i Nil)
      | None => None
      end
  | (ip, Some fp) =>
      match NilZero.int_of_string ip, NilZero.uint_of_string fp with
      | Some i, Some f => Some (mkDouble i f)
      | _, _ => None
      end
  end.

(** A double in text: an optional '+' (not followed by a second sign), then
    the literal. *)
Definition parse_double (s : string) : option double :=
  match s with
  | String a r =>
      if Ascii.eqb a "+" then
        match r with
        | String b _ => if Ascii.eqb b "-" then None else parse_decimal r
        | EmptyString => None
        end
      else parse_decimal s
  | EmptyString => None
  end.

(** The numerical value of a decimal literal. *)
Definition Q_of_double (d : double) : Q :=
  Qmake (Z.of_int (Decimal.app_int (dint d) (dfrac d)))
        (Pos.of_nat (Nat.pow 10 (Decimal.nb_digits (dfrac d)))).

(** A literal as the parser produces it: digits on both sides of the point. *)
Definition uint_nonnil (u : uint) : bool := match u with Nil => false | _ => true end.

Definition int_nonnil (i : Decimal.int) : bool :=
  match i with Pos u | Neg u => uint_nonnil u end.

Definition canonical_double (d : double) : bool := int_nonnil (dint d).

(** ** Sparse features: [gp_sample] and its codec *)

Record gp_sample := mk_gp_sample { index : Z; value : double }.

Definition sentinel : gp_sample := mk_gp_sample (-1) (mkDouble (Pos zero) Nil).

Definition encodeToken (f : gp_sample) : string :=
  (show_int (index f) ++ String ":" (show_double (value f)))%string.

Definition decodeToken (s : string) : option gp_sample :=
  match split_on ":" s with
  | (a, Some b) =>
      match parse_int a, parse_double b with
      | Some i, Some v => if (0 <? i)%Z then Some (mk_gp_sample i v) else None
      | _, _ => None
      end
  | (_, None) => None
  end.

Example decodeToken_ok :
  decodeToken "3:2.5" = Some (mk_gp_sample 3 (mkDouble (Pos (D2 Nil)) (D5 Nil))).
Proof. reflexivity. Qed.

Example decodeToken_abc : decodeToken "1:abc" = None.
Proof. reflexivity. Qed.

Example decodeToken_two_signs : decodeToken "1:+-5" = None.
Proof. reflexivity. Qed.

Example decodeToken_plus : decodeToken "1:+5" = Some (mk_gp_sample 1 (mkDouble (Pos (D5 Nil)) Nil)).
Proof. reflexivity. Qed.

Example words_ex : words "  +1 1:5   3:2
" = ["+1"; "1:5"; "3:2"]%string.
Proof. reflexivity. Qed.

Example lines_ex : lines "a b
c
" = ["a b"; "c"; ""]%string.
Proof. reflexivity. Qed.

(** ** The feature arena *)

(** The features of the sample that starts at [off]: read until the
    sentinel, the way the kernel code walks [x[i]]. *)
Fixpoint take_until_sentinel (l : list gp_sample) : list gp_sample :=
  match l with
  | [] => []
  | f :: r => if (index f =? -1)%Z then [] else f :: take_until_sentinel r
  end.

Definition feats_at (arena : list gp_sample) (off : nat) : list gp_sample :=
  take_until_sentinel (skipn off arena).

(** Lays samples out one after the other in an arena, each closed by the
    sentinel; returns the offsets of the samples and the arena. *)
Fixpoint layout (off : nat) (ss : list (list gp_sample)) : list nat * list gp_sample :=
  match ss with
  | [] => ([], [])
  | fs :: r =>
      let (xs, ar) := layout (off + List.length fs + 1) r in
      (off :: xs, fs ++ sentinel :: ar)
  end.

(** Squared L2 norm of a sample (the [quadratic_value] cache). *)
Definition sq_norm (fs : list gp_sample) : Q :=
  fold_right Qplus 0%Q (map (fun f => Q_of_double (value f) * Q_of_double (value f))%Q fs).

(** Largest feature index of a collection of samples, [0] when it has none. *)
Definition max_index (ss : list (list gp_sample)) : Z :=
  fold_right Z.max 0%Z (map index (List.concat ss)).

(** ** [gp_dataset] *)

Module Dataset.
Record gp_dataset := mk_gp_dataset {
  l : Z;                      (** labeled or not *)
  sparse : Z;
  maxdim : Z;
  y : list double;            (** the label of every sample *)
  x : list nat;               (** offset of the first feature of every sample *)
  quadratic_value : list Q;   (** squared L2 norm of every sample *)
  features : list gp_sample   (** the arena *)
}.

Definition samples (d : gp_dataset) : list (list gp_sample) :=
  map (feats_at (features d)) (x d).
End Dataset.

(** ** [model] *)

Module Model.
Record model := mk_model {
  kernelType : Z;
  kernelHyperParam : list double;
  nData : Z;                  (** number of support vectors *)
  weights : list double;
  bias : double;
  x : list nat;               (** offset of every support vector in the arena *)
  quadratic_value : list Q;
  nElem : Z;
  maxdim : Z;
  features : list gp_sample
}.

Definition sv_feats (m : model) (i : nat) : list gp_sample :=
  feats_at (features m) (nth i (x m) O).

Definition zero_double : double := mkDouble (Pos zero) Nil.

Definition sv_weight (m : model) (i : nat) : double := nth i (weights m) zero_double.

Definition svs (m : model) : list (list gp_sample) :=
  map (sv_feats m) (seq 0 (Z.to_nat (nData m))).
End Model.

(** ** Errors, allocation, files *)

Inductive io_error := FileError | FormatError | AllocationError.

(** What a call does for its caller: it returns a value, or it reports an
    error and the run is aborted (the C functions have no error result). *)
Inductive outcome (A : Type) := Returns (a : A) | Aborts (e : io_error).
Arguments Returns {A} a.
Arguments Aborts {A} e.

(** The allocator: the live blocks and the next fresh block. *)
Record heap := mk_heap { live : list nat; next_block : nat }.

Definition heap_wf (h : heap) : Prop := Forall (fun b => (b < next_block h)%nat) (live h).

Definition malloc (h : heap) : nat * heap :=
  (next_block h, mk_heap (next_block h :: live h) (S (next_block h))).

Definition free (b : nat) (h : heap) : heap :=
  mk_heap (remove Nat.eq_dec b (live h)) (next_block h).

Definition free_opt (b : option nat) (h : heap) : heap :=
  match b with Some b => free b h | None => h end.

Record filesystem := mk_fs {
  files : string -> option string;
  can_create : string -> bool;
  open_handles : nat
}.

(** ** Dataset loader *)

Fixpoint decode_all (ts : list string) : option (list gp_sample) :=
  match ts with
  | [] => Some []
  | t :: r =>
      match decodeToken t, decode_all r with
      | Some f, Some fs => Some (f :: fs)
      | _, _ => None
      end
  end.

(** One non-blank line: the label (labeled mode) and the feature tokens. *)
Definition parse_sample (labeled : bool) (line : string)
  : option (option double * list gp_sample) :=
  match words line with
  | [] => Some (None, [])
  | t :: ts =>
      if labeled then
        match parse_double t, decode_all ts with
        | Some v, Some fs => Some (Some v, fs)
        | _, _ => None
        end
      else
        match decode_all (t :: ts) with
        | Some fs => Some (None, fs)
        | None => None
        end
  end.

Record load_state := mk_load_state {
  ls_arena : list gp_sample;
  ls_x : list nat;
  ls_y : list double;
  ls_maxdim : Z;
  ls_block : nat                (** the block that holds the arena *)
}.

Definition label_list (lab : option double) : list double :=
  match lab with Some v => [v] | None => [] end.

(** Appends one sample: the arena is grown by [realloc] (a new block, the
    old one released), the sample's offset is recorded, [maxdim] is updated
    to the running maximum. *)
Definition add_sample (lab : option double) (fs : list gp_sample) (st : load_state) (h : heap)
  : load_state * heap :=
  let (b, h1) := malloc h in
  let h2 := free (ls_block st) h1 in
  (mk_load_state (ls_arena st ++ fs ++ [sentinel]) (ls_x st ++ [List.length (ls_arena st)])
     (ls_y st ++ label_list lab) (fold_left Z.max (map index fs) (ls_maxdim st)) b, h2).

Fixpoint load_lines (labeled : bool) (ls : list string) (st : load_state) (h : heap)
  : option io_error * load_state * heap :=
  match ls with
  | [] => (None, st, h)
  | line :: rest =>
      if blank line then load_lines labeled rest st h
      else match parse_sample labeled line with
           | None => (Some FormatError, st, h)
           | Some (lab, fs) =>
               let (st', h') := add_sample lab fs st h in
               load_lines labeled rest st' h'
           end
  end.

(** [readTrainFile] ([labeled = true]) and [readUnlabeledFile]
    ([labeled = false]).  Modelled from the spec: the bodies of these
    functions (IOFunctions.c) are not part of the sources; this follows the
    loader of the specification: line by line, one growable arena, the
    caches computed once at the end, and on a malformed token every block of
    the attempt released before the error is reported. *)
Definition read_dataset (labeled : bool) (fs : filesystem) (filename : string) (h : heap)
  : outcome Dataset.gp_dataset * heap :=
  match files fs filename with
  | None => (Aborts FileError, h)
  | Some txt =>
      let (bx, h1) := malloc h in
      let (by_, h2) := if labeled then let (b, h') := malloc h1 in (Some b, h')
                       else (None, h1) in
      let (ba, h3) := malloc h2 in
      match load_lines labeled (lines txt) (mk_load_state [] [] [] 0%Z ba) h3 with
      | (Some e, st, h4) =>
          (Aborts e, free bx (free_opt by_ (free (ls_block st) h4)))
      | (None, st, h4) =>
          let (_, h5) := malloc h4 in
          (Returns (Dataset.mk_gp_dataset (if labeled then 1 else 0)%Z 1%Z
                     (ls_maxdim st) (ls_y st) (ls_x st)
                     (map (fun off => sq_norm (feats_at (ls_arena st) off)) (ls_x st))
                     (ls_arena st)), h5)
      end
  end.

Definition readTrainFile := read_dataset true.
Definition readUnlabeledFile := read_dataset false.

Definition example_fs : filesystem :=
  mk_fs (fun n => if String.eqb n "train.txt" then Some "+1 1:5 3:2
-1 2:4
"%string else if String.eqb n "bad.txt" then Some "1:abc
"%string else if String.eqb n "sign.txt" then Some "1:+-5
"%string else None)
        (fun _ => true) 0.

Example readTrainFile_example :
  match readTrainFile example_fs "train.txt" (mk_heap [] 0) with
  | (Returns d, _) =>
      Dataset.maxdim d = 3%Z /\ Dataset.x d = [0; 3]%nat /\
      map Q_of_double (Dataset.y d) = [1#1; -1#1]%Q /\
      Dataset.quadratic_value d = [29#1; 16#1]%Q
  | _ => False
  end.
Proof. vm_compute. repeat split; reflexivity. Qed.

Example readUnlabeledFile_bad :
  readUnlabeledFile example_fs "bad.txt" (mk_heap [] 0) = (Aborts FormatError, mk_heap [] 2).
Proof. reflexivity. Qed.

(** ** Model serializer *)

(** One line of the model file: the fields separated by blanks. *)
Definition line (ws : list string) : string :=
  (String.concat " " ws ++ String newline EmptyString)%string.

Definition sv_line (m : Model.model) (i : nat) : string :=
  line (map encodeToken (Model.sv_feats m i) ++ [show_double (Model.sv_weight m i)]).

(** [storeModel(mod, Output)]: [Output] is what the stream holds before the
    call; the result is what it holds after.  Modelled from the spec: the
    body is not part of the sources; the fields are written in the order of
    the specification, one support vector per line. *)
Definition storeModel (m : Model.model) (Output : string) : string :=
  (Output
   ++ line [show_int (Model.kernelType m)]
   ++ line [show_int (Z.of_nat (List.length (Model.kernelHyperParam m)))]
   ++ line (map show_double (Model.kernelHyperParam m))
   ++ line [show_double (Model.bias m)]
   ++ line [show_int (Model.nData m)]
   ++ line [show_int (Model.nElem m)]
   ++ line [show_int (Model.maxdim m)]
   ++ String.concat "" (map (sv_line m) (seq 0 (Z.to_nat (Model.nData m)))))%string.

(** A parser over the tokens of the stream; [None] is a [FormatError]. *)
Definition parser (A : Type) := list string -> option (A * list string).

Definition next_int : parser Z :=
  fun ts => match ts with
            | [] => None
            | t :: r => match parse_int t with Some z => Some (z, r) | None => None end
            end.

Definition next_count : parser nat :=
  fun ts => match next_int ts with
            | Some (z, r) => if (0 <=? z)%Z then Some (Z.to_nat z, r) else None
            | None => None
            end.

Definition next_double : parser double :=
  fun ts => match ts with
            | [] => None
            | t :: r => match parse_double t with Some v => Some (v, r) | None => None end
            end.

Definition has_colon (t : string) : bool := negb (all_chars (not_char ":") t).

(** One support vector: its feature tokens, then its weight. *)
Fixpoint next_sv (ts : list string) : option ((list gp_sample * double) * list string) :=
  match ts with
  | [] => None
  | t :: r =>
      if has_colon t then
        match decodeToken t, next_sv r with
        | Some f, Some ((fs, w), r') => Some ((f :: fs, w), r')
        | _, _ => None
        end
      else match parse_double t with
           | Some w => Some (([], w), r)
           | None => None
           end
  end.

Fixpoint next_n {A} (n : nat) (p : parser A) : parser (list A) :=
  fun ts => match n with
            | O => Some ([], ts)
            | S n' => match p ts with
                      | Some (a, r) =>
                          match next_n n' p r with
                          | Some (as_, r') => Some (a :: as_, r')
                          | None => None
                          end
                      | None => None
                      end
            end.

(** The model that [readModel] builds from the fields it has read: the
    support vectors are laid out in a fresh arena and the norms are
    recomputed from their features. *)
Definition build_model (k : Z) (hs : list double) (b : double) (n ne md : Z)
  (svs : list (list gp_sample * double)) : Model.model :=
  let (xs, arena) := layout 0 (map fst svs) in
  Model.mk_model k hs n (map snd svs) b xs (map sq_norm (map fst svs)) ne md arena.

(** [readModel(mod, Input)]: the result is what [*mod] holds after the call.
    Modelled from the spec: the body is not part of the sources; the fields
    are read back in the order [storeModel] writes them, and any missing,
    malformed or extra field is a [FormatError]. *)
Definition readModel (Input : string) : outcome Model.model :=
  let ts := words Input in
  match next_int ts with
  | None => Aborts FormatError
  | Some (k, ts1) =>
  match next_count ts1 with
  | None => Aborts FormatError
  | Some (nh, ts2) =>
  match next_n nh next_double ts2 with
  | None => Aborts FormatError
  | Some (hs, ts3) =>
  match next_double ts3 with
  | None => Aborts FormatError
  | Some (b, ts4) =>
  match next_count ts4 with
  | None => Aborts FormatError
  | Some (n, ts5) =>
  match next_int ts5 with
  | None => Aborts FormatError
  | Some (ne, ts6) =>
  match next_int ts6 with
  | None => Aborts FormatError
  | Some (md, ts7) =>
  match next_n n next_sv ts7 with
  | Some (svs, []) => Returns (build_model k hs b (Z.of_nat n) ne md svs)
  | _ => Aborts FormatError
  end end end end end end end end.

(** ** Output writer *)

(** [writeOutput(fileoutput, predictions, size)]: creates the file, writes
    [predictions[0..size-1]] one per line, closes it.  Modelled from the
    spec: the body is not part of the sources. *)
Definition writeOutput (fs : filesystem) (fileoutput : string) (predictions : list double)
  (size : Z) : outcome unit * filesystem :=
  if can_create fs fileoutput then
    let opened := mk_fs (fun n => if String.eqb n fileoutput then Some EmptyString else files fs n)
                        (can_create fs) (S (open_handles fs)) in
    let text := String.concat ""
                  (map (fun i => show_double (nth i predictions Model.zero_double)
                                 ++ String newline EmptyString)%string
                       (seq 0 (Z.to_nat size))) in
    (Returns tt, mk_fs (fun n => if String.eqb n fileoutput then Some text else files opened n)
                       (can_create fs) (pred (open_handles opened)))
  else (Aborts FileError, fs).

Definition example_model : Model.model :=
  Model.mk_model 1 [mkDouble (Pos (D0 Nil)) (D5 Nil)] 2
    [mkDouble (Pos (D1 Nil)) Nil; mkDouble (Neg (D0 Nil)) (D2 (D5 Nil))]
    (mkDouble (Neg (D3 Nil)) Nil)
    [0; 3]%nat [29#1; 16#1]%Q 3 3
    [mk_gp_sample 1 (mkDouble (Pos (D5 Nil)) Nil); mk_gp_sample 3 (mkDouble (Pos (D2 Nil)) Nil);
     sentinel; mk_gp_sample 2 (mkDouble (Pos (D4 Nil)) Nil); sentinel].

Example storeModel_example :
  storeModel example_model "" = "1
1
0.5
-3
2
3
3
1:5 3:2 1
2:4 -0.25
"%string.
Proof. reflexivity. Qed.

Example readModel_example :
  readModel (storeModel example_model "") = Returns example_model.
Proof. reflexivity. Qed.

(** A model file written by hand: linear kernel, no hyperparameters, bias 0,
    one support vector with the single feature [1:5] and weight 1, and a
    [maxdim] field of 7. *)
Definition hand_model_file : string := "0
0
0
1
1
7
1:5 1
"%string.

(** ** The declarations of [IOFunctions.h] *)

(** The C types, structs and prototypes of the header, as declared. *)
Module Header.

Inductive ctype :=
| CVoid | CInt | CDouble | CChar | CFILE
| CPtr (t : ctype)
| CArray (t : ctype)
| CStruct (name : string).

Record field := mk_field { fname : string; ftype : ctype }.
Record cstruct := mk_struct { sname : string; sfields : list field }.
Record param := mk_param { pname : string; ptype : ctype }.
Record cfun := mk_fun { fun_name : string; ret : ctype; params : list param }.

Definition properties : cstruct := mk_struct "properties" [
  mk_field "kernelHyperParam" (CPtr CDouble);
  mk_field "kernelType" CInt;
  mk_field "noiseParam" (CPtr CDouble);
  mk_field "Threads" CInt;
  mk_field "Eta" CDouble].

Definition predictProperties : cstruct := mk_struct "predictProperties" [
  mk_field "Labels" CInt;
  mk_field "Threads" CInt].

Definition model : cstruct := mk_struct "model" [
  mk_field "kernelType" CInt;
  mk_field "kernelHyperParam" (CPtr CDouble);
  mk_field "nData" CInt;
  mk_field "weights" (CPtr CDouble);
  mk_field "bias" CDouble;
  mk_field "x" (CPtr (CPtr (CStruct "gp_sample")));
  mk_field "quadratic_value" (CPtr CDouble);
  mk_field "nElem" CInt;
  mk_field "maxdim" CInt;
  mk_field "features" (CPtr (CStruct "gp_sample"))].

Definition gp_sample : cstruct := mk_struct "gp_sample" [
  mk_field "index" CInt;
  mk_field "value" CDouble].

Definition gp_dataset : cstruct := mk_struct "gp_dataset" [
  mk_field "l" CInt;
  mk_field "sparse" CInt;
  mk_field "maxdim" CInt;
  mk_field "y" (CPtr CDouble);
  mk_field "x" (CPtr (CPtr (CStruct "gp_sample")));
  mk_field "quadratic_value" (CPtr CDouble);
  mk_field "features" (CPtr (CStruct "gp_sample"))].

Definition structs : list cstruct :=
  [properties; predictProperties; model; gp_sample; gp_dataset].

Definition freeDataset : cfun :=
  mk_fun "freeDataset" CVoid [mk_param "data" (CStruct "gp_dataset")].
Definition freeModel : cfun :=
  mk_fun "freeModel" CVoid [mk_param "modelo" (CStruct "model")].
Definition readTrainFile : cfun :=
  mk_fun "readTrainFile" (CStruct "gp_dataset") [mk_param "filename" (CArray CChar)].
Definition readUnlabeledFile : cfun :=
  mk_fun "readUnlabeledFile" (CStruct "gp_dataset") [mk_param "filename" (CArray CChar)].
Definition storeModel : cfun :=
  mk_fun "storeModel" CVoid [mk_param "mod" (CPtr (CStruct "model"));
                             mk_param "Output" (CPtr CFILE)].
Definition readModel : cfun :=
  mk_fun "readModel" CVoid [mk_param "mod" (CPtr (CStruct "model"));
                            mk_param "Input" (CPtr CFILE)].
Definition writeOutput : cfun :=
  mk_fun "writeOutput" CVoid [mk_param "fileoutput" (CArray CChar);
                              mk_param "predictions" (CPtr CDouble);
                              mk_param "size" CInt].

(** The operations that read or write files. *)
Definition io_functions : list cfun :=
  [readTrainFile; readUnlabeledFile; storeModel; readModel; writeOutput].

Definition field_names (s : cstruct) : list string := map fname (sfields s).

Definition field_type (s : cstruct) (f : string) : option ctype :=
  option_map ftype (List.find (fun fd => String.eqb (fname fd) f) (sfields s)).

Fixpoint ctype_eqb (t u : ctype) : bool :=
  match t, u with
  | CVoid, CVoid | CInt, CInt | CDouble, CDouble | CChar, CChar | CFILE, CFILE => true
  | CPtr t, CPtr u | CArray t, CArray u => ctype_eqb t u
  | CStruct n, CStruct m => String.eqb n m
  | _, _ => false
  end.

(** A parameter through which a callee could hand a status back: a pointer
    to an integer, or a pointer to a pointer (an error message, say). *)
Definition status_out_param (t : ctype) : bool :=
  match t with
  | CPtr CInt | CPtr (CPtr _) => true
  | _ => false
  end.

(** A return type through which a status could travel: anything but [void]
    and the dataset struct, whose fields are all data. *)
Definition status_return (t : ctype) : bool :=
  negb (ctype_eqb t CVoid || ctype_eqb t (CStruct "gp_dataset")).

Definition is_pointer (t : ctype) : bool :=
  match t with CPtr _ => true | _ => false end.

(** The pointer fields of a struct: the blocks a release function frees. *)
Definition pointer_fields (s : cstruct) : list string :=
  map fname (filter (fun fd => is_pointer (ftype fd)) (sfields s)).

End Header.

(** ** Passing a record by value *)

(** The memory a call works on: numbered cells holding a struct (its fields
    in declaration order) or a heap block; [None] is an unallocated cell. *)
Module CMem.

Inductive value := VInt (z : Z) | VDouble (d : double) | VPtr (p : option nat).

Inductive cell := SCell (vs : list (string * value)) | HBlock.

Definition mem := nat -> option cell.

Definition upd (m : mem) (k : nat) (c : option cell) : mem :=
  fun k' => if Nat.eqb k' k then c else m k'.

Fixpoint lookup (f : string) (vs : list (string * value)) : option value :=
  match vs with
  | [] => None
  | (g, v) :: r => if String.eqb g f then Some v else lookup f r
  end.

Definition set_field (f : string) (v : value) (vs : list (string * value)) :=
  map (fun gw => if String.eqb (fst gw) f then (fst gw, v) else gw) vs.

(** The statements a release function runs on its parameter [data]:
    [free(data.f)] and [data.f = v]. *)
Inductive stmt := FreeField (f : string) | SetField (f : string) (v : value).

Definition exec_stmt (frame : nat) (m : mem) (s : stmt) : mem :=
  match s, m frame with
  | FreeField f, Some (SCell vs) =>
      match lookup f vs with Some (VPtr (Some b)) => upd m b None | _ => m end
  | SetField f v, Some (SCell vs) => upd m frame (Some (SCell (set_field f v vs)))
  | _, _ => m
  end.

(** A body stores no non-null pointer into its parameter. *)
Definition no_pointer_store (body : list stmt) : bool :=
  forallb (fun s => match s with SetField _ (VPtr (Some _)) => false | _ => true end) body.

(** A call [f(rec)] with [rec] at address [a]: the record is copied into the
    callee's frame at [frame], the body runs on that copy, and the frame is
    popped on return. *)
Definition call (body : list stmt) (m : mem) (a frame : nat) : mem :=
  match m a with
  | Some c => upd (fold_left (exec_stmt frame) body (upd m frame (Some c))) frame None
  | None => m
  end.

(** [freeDataset(data)] and [freeModel(modelo)].  Modelled from the spec:
    the bodies are not part of the sources; each frees the blocks its
    parameter's pointer fields point to and clears those fields of the
    parameter. *)
Definition release_body (s : Header.cstruct) : list stmt :=
  List.concat (map (fun f => [FreeField f; SetField f (VPtr None)]) (Header.pointer_fields s)).

Definition freeDataset_body : list stmt := release_body Header.gp_dataset.
Definition freeModel_body : list stmt := release_body Header.model.

End CMem.

(** ** Notions used in the proofs *)

Definition num_char (a : ascii) : bool := is_digit a || Ascii.eqb a "-".
Definition dbl_char (a : ascii) : bool := num_char a || Ascii.eqb a ".".
Definition tok_char (a : ascii) : bool := dbl_char a || Ascii.eqb a ":".
Definition nsp (a : ascii) : bool := negb (is_space a).

Definition good_word (t : string) : Prop := t <> EmptyString /\ all_chars nsp t = true.

(** The token sequence of the model file, field by field. *)
Definition sv_tokens (m : Model.model) (i : nat) : list string :=
  map encodeToken (Model.sv_feats m i) ++ [show_double (Model.sv_weight m i)].

Definition model_tokens (m : Model.model) : list string :=
  [show_int (Model.kernelType m);
   show_int (Z.of_nat (List.length (Model.kernelHyperParam m)))]
  ++ map show_double (Model.kernelHyperParam m)
  ++ [show_double (Model.bias m); show_int (Model.nData m);
      show_int (Model.nElem m); show_int (Model.maxdim m)]
  ++ List.concat (map (sv_tokens m) (seq 0 (Z.to_nat (Model.nData m)))).

Definition feature_ok (f : gp_sample) : Prop :=
  (0 < index f)%Z /\ canonical_double (value f) = true.

(** A model as the trainer hands it over: as many weights as support
    vectors, 1-based feature indices, doubles written with an integer part,
    and the norm cache in agreement with the features. *)
Record model_wf (m : Model.model) : Prop := {
  wf_nData : (0 <= Model.nData m)%Z;
  wf_weights : List.length (Model.weights m) = Z.to_nat (Model.nData m);
  wf_hyper : Forall (fun d => canonical_double d = true) (Model.kernelHyperParam m);
  wf_bias : canonical_double (Model.bias m) = true;
  wf_weight_vals : Forall (fun d => canonical_double d = true) (Model.weights m);
  wf_feats : Forall (Forall feature_ok) (Model.svs m);
  wf_cache : Model.quadratic_value m = map sq_norm (Model.svs m)
}.

Definition pos_index (f : gp_sample) : Prop := (0 < index f)%Z.

Definition stored_svs (m : Model.model) : list (list gp_sample * double) :=
  map (fun i => (Model.sv_feats m i, Model.sv_weight m i)) (seq 0 (Z.to_nat (Model.nData m))).

Definition nonblank_count (ls : list string) : nat :=
  List.length (filter (fun ln => negb (blank ln)) ls).

(** The loader's state once the samples [ss] with labels [ys] are in. *)
Definition state_of (ss : list (list gp_sample)) (ys : list double) (b : nat) : load_state :=
  mk_load_state (snd (layout 0 ss)) (fst (layout 0 ss)) ys (max_index ss) b.

(** The feature tokens of a line: all but the label in labeled mode. *)
Definition feature_tokens (labeled : bool) (line : string) : list string :=
  if labeled then tl (words line) else words line.

Example writeOutput_example :
  match writeOutput (mk_fs (fun _ => None) (fun _ => true) 0) "out.txt"%string
          [mkDouble (Pos (D0 Nil)) (D5 Nil); mkDouble (Neg (D1 Nil)) (D2 Nil)] 2 with
  | (_, fs') => files fs' "out.txt"%string = Some "0.5
-1.2
"%string
  end.
Proof. reflexivity. Qed.

(** What the body of a call keeps true: the caller's record is intact, and
    the callee's copy (while it exists) points nowhere near it. *)
Definition call_inv (a frame : nat) (vs : list (string * CMem.value)) (m : CMem.mem) : Prop :=
  m a = Some (CMem.SCell vs) /\
  (m frame = None \/ m frame = Some CMem.HBlock \/
   exists vs', m frame = Some (CMem.SCell vs') /\
     forall f b, In (f, CMem.VPtr (Some b)) vs' -> b <> a).

Definition example_mem : CMem.mem :=
  fun k => match k with
           | 0 => Some (CMem.SCell [("l", CMem.VInt 1); ("sparse", CMem.VInt 1);
                                    ("maxdim", CMem.VInt 3); ("y", CMem.VPtr (Some 1));
                                    ("x", CMem.VPtr (Some 2));
                                    ("quadratic_value", CMem.VPtr (Some 3));
                                    ("features", CMem.VPtr (Some 4))])%string
           | 1 | 2 | 3 | 4 => Some CMem.HBlock
           | _ => None
           end.


(** * Lemmas *)

(** ** Strings *)

Lemma sappend_assoc (a b c : string) : ((a ++ b) ++ c)%string = (a ++ (b ++ c))%string.
Proof. induction a; simpl; congruence. Qed.

Lemma sappend_empty_r (a : string) : (a ++ "")%string = a.
Proof. induction a; simpl; congruence. Qed.

Lemma all_chars_app p (a b : string) :
  all_chars p (a ++ b) = all_chars p a && all_chars p b.
Proof. induction a; simpl; [reflexivity | rewrite IHa; apply andb_assoc]. Qed.

Lemma all_chars_impl (p q : ascii -> bool) (s : string) :
  (forall a, p a = true -> q a = true) -> all_chars p s = true -> all_chars q s = true.
Proof.
  intros Hpq; induction s; simpl; auto.
  intros H; apply andb_prop in H as [H1 H2]; rewrite (Hpq _ H1); auto.
Qed.

Ltac ascii_cases := intros a; destruct a as [[] [] [] [] [] [] [] []]; vm_compute; congruence.

Lemma digit_num : forall a, is_digit a = true -> num_char a = true.
Proof. ascii_cases. Qed.
Lemma num_dbl : forall a, num_char a = true -> dbl_char a = true.
Proof. ascii_cases. Qed.
Lemma dbl_tok : forall a, dbl_char a = true -> tok_char a = true.
Proof. ascii_cases. Qed.
Lemma tok_nsp : forall a, tok_char a = true -> nsp a = true.
Proof. ascii_cases. Qed.
Lemma num_not_dot : forall a, num_char a = true -> not_char "." a = true.
Proof. ascii_cases. Qed.
Lemma dbl_not_colon : forall a, dbl_char a = true -> not_char ":" a = true.
Proof. ascii_cases. Qed.
Lemma num_not_plus : forall a, num_char a = true -> Ascii.eqb a "+" = false.
Proof. ascii_cases. Qed.

Lemma uint_digits (u : uint) : all_chars is_digit (NilEmpty.string_of_uint u) = true.
Proof. induction u; simpl; auto. Qed.

Lemma int_num_chars (i : Decimal.int) : all_chars num_char (NilZero.string_of_int i) = true.
Proof.
  assert (Hu : forall u, all_chars num_char (NilZero.string_of_uint u) = true).
  { intros u; destruct u; try reflexivity;
      exact (all_chars_impl _ _ _ digit_num (uint_digits _)). }
  destruct i; simpl; [apply Hu | rewrite Hu; reflexivity].
Qed.

Lemma int_nonempty (i : Decimal.int) : NilZero.string_of_int i <> EmptyString.
Proof. destruct i as [u|u]; [destruct u|]; simpl; discriminate. Qed.

Lemma double_chars (d : double) : all_chars dbl_char (show_double d) = true.
Proof.
  unfold show_double.
  assert (Hi := all_chars_impl _ _ _ num_dbl (int_num_chars (dint d))).
  destruct (dfrac d) as [|u|u|u|u|u|u|u|u|u|u]; auto;
    rewrite all_chars_app, Hi; simpl;
    exact (all_chars_impl _ _ _ (fun a Ha => num_dbl a (digit_num a Ha)) (uint_digits _)).
Qed.

Lemma double_nonempty (d : double) : show_double d <> EmptyString.
Proof.
  unfold show_double; pose proof (int_nonempty (dint d)).
  destruct (dfrac d); auto; destruct (NilZero.string_of_int (dint d)); simpl; congruence.
Qed.

Lemma token_chars (f : gp_sample) : all_chars tok_char (encodeToken f) = true.
Proof.
  unfold encodeToken, show_int; rewrite all_chars_app; simpl.
  rewrite (all_chars_impl _ _ _ (fun a H => dbl_tok a (num_dbl a H)) (int_num_chars _)).
  rewrite (all_chars_impl _ _ _ dbl_tok (double_chars _)); reflexivity.
Qed.

Lemma token_nonempty (f : gp_sample) : encodeToken f <> EmptyString.
Proof.
  unfold encodeToken; pose proof (int_nonempty (Z.to_int (index f))); unfold show_int.
  destruct (NilZero.string_of_int (Z.to_int (index f))); simpl; congruence.
Qed.

(** ** Tokenizer *)

Lemma tok_app (t s : string) :
  all_chars nsp t = true -> tok (t ++ s) = ((t ++ fst (tok s))%string, snd (tok s)).
Proof.
  induction t as [|a t IH]; simpl; intros H.
  - destruct (tok s); reflexivity.
  - apply andb_prop in H as [Ha Ht]; rewrite (IH Ht).
    unfold nsp in Ha; apply negb_true_iff in Ha; rewrite Ha; reflexivity.
Qed.

Lemma words_space (c : ascii) (s : string) :
  is_space c = true -> words (String c s) = words s.
Proof.
  intros Hc; unfold words; simpl; destruct (tok s) as [w ws]; rewrite Hc; reflexivity.
Qed.

Lemma words_word_sep (t : string) (c : ascii) (s : string) :
  good_word t -> is_space c = true -> words (t ++ String c s) = t :: words s.
Proof.
  intros [Hne Ht] Hc; unfold words at 1; rewrite (tok_app _ _ Ht); simpl.
  unfold words; destruct (tok s) as [w ws]; rewrite Hc; simpl.
  rewrite sappend_empty_r; destruct t; [congruence | reflexivity].
Qed.

Lemma words_concat_line (ws : list string) (rest : string) :
  Forall good_word ws ->
  words (String.concat " " ws ++ String newline rest) = ws ++ words rest.
Proof.
  induction ws as [|t ws IH]; intros Hws.
  - simpl; apply words_space; reflexivity.
  - inversion Hws as [|? ? Ht Hws']; subst.
    destruct ws as [|t2 ws'].
    + simpl String.concat; rewrite words_word_sep; auto.
    + change (String.concat " " (t :: t2 :: ws'))
        with (t ++ " " ++ String.concat " " (t2 :: ws'))%string.
      rewrite !sappend_assoc.
      change (" " ++ ?Z)%string with (String " " Z).
      rewrite words_word_sep by (auto; reflexivity).
      rewrite IH by assumption; reflexivity.
Qed.

Lemma words_line (ws : list string) (rest : string) :
  Forall good_word ws -> words (line ws ++ rest) = ws ++ words rest.
Proof.
  intros H; unfold line; rewrite sappend_assoc; simpl; apply words_concat_line, H.
Qed.

Lemma concat_empty_sep (ls : list string) :
  String.concat "" ls = fold_right String.append EmptyString ls.
Proof.
  induction ls as [|a ls IH]; [reflexivity|].
  destruct ls as [|b ls']; simpl; [symmetry; apply sappend_empty_r | simpl in IH; rewrite IH; reflexivity].
Qed.

Lemma words_lines (wss : list (list string)) :
  Forall (Forall good_word) wss ->
  words (String.concat "" (map line wss)) = List.concat wss.
Proof.
  rewrite concat_empty_sep; induction wss as [|ws wss IH]; intros H; [reflexivity|].
  inversion H; subst; simpl; rewrite words_line by assumption; rewrite IH by assumption.
  reflexivity.
Qed.

Lemma int_good (z : Z) : good_word (show_int z).
Proof.
  split; [apply int_nonempty|].
  exact (all_chars_impl _ _ _ (fun a H => tok_nsp a (dbl_tok a (num_dbl a H))) (int_num_chars _)).
Qed.

Lemma double_good (d : double) : good_word (show_double d).
Proof.
  split; [apply double_nonempty|].
  exact (all_chars_impl _ _ _ (fun a H => tok_nsp a (dbl_tok a H)) (double_chars _)).
Qed.

Lemma token_good (f : gp_sample) : good_word (encodeToken f).
Proof.
  split; [apply token_nonempty|].
  exact (all_chars_impl _ _ _ tok_nsp (token_chars _)).
Qed.

Create HintDb words.
#[local] Hint Resolve int_good double_good token_good : words.

Lemma Forall_map_good {A} (f : A -> string) (l : list A) :
  (forall a, good_word (f a)) -> Forall good_word (map f l).
Proof. intros H; apply Forall_forall; intros t Ht; apply in_map_iff in Ht as (a & <- & _); auto. Qed.

Ltac solve_good :=
  repeat first [ apply Forall_nil | apply Forall_cons | apply Forall_app; split
               | apply Forall_map_good; intros
               | apply int_good | apply double_good | apply token_good ].

Lemma words_storeModel (m : Model.model) : words (storeModel m "") = model_tokens m.
Proof.
  unfold storeModel, model_tokens; simpl String.append.
  repeat (rewrite words_line by solve_good).
  assert (Hsv : map (sv_line m) (seq 0 (Z.to_nat (Model.nData m)))
                = map line (map (sv_tokens m) (seq 0 (Z.to_nat (Model.nData m)))))
    by (rewrite map_map; reflexivity).
  rewrite Hsv, words_lines.
  - reflexivity.
  - apply Forall_forall; intros ws Hws; apply in_map_iff in Hws as (i & <- & _).
    unfold sv_tokens; solve_good.
Qed.

(** ** Parsing what was printed *)

Lemma split_on_none (c : ascii) (s : string) :
  all_chars (not_char c) s = true -> split_on c s = (s, None).
Proof.
  induction s as [|a s IH]; simpl; [reflexivity|]; intros H.
  apply andb_prop in H as [Ha Hs]; unfold not_char in Ha; apply negb_true_iff in Ha.
  rewrite Ha, IH by exact Hs; reflexivity.
Qed.

Lemma split_on_app (c : ascii) (a b : string) :
  all_chars (not_char c) a = true -> split_on c (a ++ String c b) = (a, Some b).
Proof.
  induction a as [|x a IH]; simpl; intros H.
  - rewrite Ascii.eqb_refl; reflexivity.
  - apply andb_prop in H as [Hx Ha]; unfold not_char in Hx; apply negb_true_iff in Hx.
    rewrite Hx, IH by exact Ha; reflexivity.
Qed.

Lemma parse_int_show (z : Z) : parse_int (show_int z) = Some z.
Proof.
  unfold parse_int, show_int; rewrite NilZero.isi.
  - simpl; rewrite DecimalZ.of_to; reflexivity.
  - destruct z; simpl; try discriminate;
      intros [= E]; apply (Unsigned.to_uint_nonnil p), E.
  - destruct z; simpl; try discriminate;
      intros [= E]; apply (Unsigned.to_uint_nonnil p), E.
Qed.

Lemma nz_uint_nonnil (u : uint) :
  uint_nonnil u = true -> NilZero.string_of_uint u = NilEmpty.string_of_uint u.
Proof. destruct u; simpl; congruence. Qed.

Lemma parse_double_show (d : double) :
  canonical_double d = true -> parse_double (show_double d) = Some d.
Proof.
  destruct d as [i f]; unfold canonical_double; simpl; intros Hc.
  assert (Hi : NilZero.int_of_string (NilZero.string_of_int i) = Some i).
  { apply NilZero.isi; intros ->; discriminate. }
  pose proof (int_num_chars i) as Hn.
  assert (Hdot := all_chars_impl _ _ _ num_not_dot Hn).
  assert (Hstrip : forall r,
    parse_double (NilZero.string_of_int i ++ r)%string =
    parse_decimal (NilZero.string_of_int i ++ r)%string).
  { intros r; pose proof (int_nonempty i) as Hne.
    destruct (NilZero.string_of_int i) as [|a s0]; [congruence|].
    simpl in Hn; apply andb_prop in Hn as [Ha _]; simpl; rewrite (num_not_plus a Ha).
    reflexivity. }
  unfold show_double; simpl dint; simpl dfrac.
  destruct f as [|u|u|u|u|u|u|u|u|u|u].
  1: { specialize (Hstrip EmptyString); rewrite sappend_empty_r in Hstrip; rewrite Hstrip.
        unfold parse_decimal; rewrite split_on_none by exact Hdot; rewrite Hi; reflexivity. }
  all: rewrite Hstrip; unfold parse_decimal; rewrite split_on_app by exact Hdot; rewrite Hi;
       unfold NilZero.uint_of_string; simpl; rewrite NilEmpty.usu; reflexivity.
Qed.

Lemma decodeToken_encodeToken (f : gp_sample) :
  (0 < index f)%Z -> canonical_double (value f) = true ->
  decodeToken (encodeToken f) = Some f.
Proof.
  intros Hpos Hc; unfold decodeToken, encodeToken.
  rewrite split_on_app.
  - rewrite parse_int_show, parse_double_show by exact Hc.
    apply Z.ltb_lt in Hpos; rewrite Hpos; destruct f; reflexivity.
  - exact (all_chars_impl _ _ _ (fun a H => dbl_not_colon a (num_dbl a H)) (int_num_chars _)).
Qed.

Lemma has_colon_token (f : gp_sample) : has_colon (encodeToken f) = true.
Proof.
  unfold has_colon, encodeToken; rewrite all_chars_app; simpl.
  rewrite andb_false_r; reflexivity.
Qed.

Lemma has_colon_double (d : double) : has_colon (show_double d) = false.
Proof.
  unfold has_colon; rewrite (all_chars_impl _ _ _ dbl_not_colon (double_chars d)); reflexivity.
Qed.

(** ** Reading the model stream *)

Lemma next_sv_tokens (fs : list gp_sample) (w : double) (r : list string) :
  Forall feature_ok fs -> canonical_double w = true ->
  next_sv (map encodeToken fs ++ show_double w :: r) = Some ((fs, w), r).
Proof.
  intros Hfs Hw; induction Hfs as [|f fs [Hpos Hc] Hfs IH]; simpl.
  - rewrite has_colon_double, parse_double_show by exact Hw; reflexivity.
  - rewrite has_colon_token, decodeToken_encodeToken, IH by assumption; reflexivity.
Qed.

Lemma next_n_concat {A B} (p : parser A) (tk : B -> list string) (v : B -> A)
  (l : list B) (r : list string) :
  (forall b r', In b l -> p (tk b ++ r') = Some (v b, r')) ->
  next_n (List.length l) p (List.concat (map tk l) ++ r) = Some (map v l, r).
Proof.
  induction l as [|b l IH]; intros H; simpl; [reflexivity|].
  rewrite <- app_assoc, H by (left; reflexivity).
  rewrite IH by (intros; apply H; right; assumption); reflexivity.
Qed.

Lemma concat_singletons {A B} (f : A -> B) (l : list A) :
  List.concat (map (fun a => [f a]) l) = map f l.
Proof. induction l; simpl; congruence. Qed.

Lemma map_nth_seq {A B} (g : A -> B) (l : list A) (d : A) :
  map (fun i => g (nth i l d)) (seq 0 (List.length l)) = map g l.
Proof.
  induction l as [|a l IH]; [reflexivity|]; simpl; f_equal.
  rewrite <- seq_shift, map_map; exact IH.
Qed.

Lemma take_until_sentinel_app (fs rest : list gp_sample) :
  Forall pos_index fs -> take_until_sentinel (fs ++ sentinel :: rest) = fs.
Proof.
  induction 1 as [|f fs Hpos _ IH]; simpl; [reflexivity|]; unfold pos_index in Hpos.
  destruct (Z.eqb_spec (index f) (-1)); [lia | rewrite IH; reflexivity].
Qed.

Lemma layout_feats (ss : list (list gp_sample)) (off : nat) (p : list gp_sample) :
  Forall (Forall pos_index) ss -> List.length p = off ->
  map (feats_at (p ++ snd (layout off ss))) (fst (layout off ss)) = ss
  /\ List.length (fst (layout off ss)) = List.length ss.
Proof.
  intros Hss; revert off p; induction Hss as [|fs ss Hfs Hss IH]; intros off p Hp;
    [split; reflexivity|].
  simpl; destruct (layout (off + List.length fs + 1) ss) as [xs ar] eqn:El; simpl.
  destruct (IH (off + List.length fs + 1) (p ++ fs ++ [sentinel])) as [H1 H2].
  { rewrite !length_app; simpl; lia. }
  rewrite El in H1, H2; simpl in H1, H2.
  rewrite <- !app_assoc in H1; simpl in H1.
  split; [|simpl; congruence].
  simpl; f_equal; [|exact H1].
  unfold feats_at; rewrite skipn_app, <- Hp, skipn_all, Nat.sub_diag; simpl.
  apply take_until_sentinel_app, Hfs.
Qed.

Lemma next_int_show (z : Z) (r : list string) : next_int (show_int z :: r) = Some (z, r).
Proof. unfold next_int; rewrite parse_int_show; reflexivity. Qed.

Lemma next_count_show (z : Z) (r : list string) :
  (0 <= z)%Z -> next_count (show_int z :: r) = Some (Z.to_nat z, r).
Proof.
  intros H; unfold next_count; rewrite next_int_show.
  apply Z.leb_le in H; rewrite H; reflexivity.
Qed.

Lemma next_double_show (d : double) (r : list string) :
  canonical_double d = true -> next_double (show_double d :: r) = Some (d, r).
Proof. intros H; unfold next_double; rewrite parse_double_show by exact H; reflexivity. Qed.

Lemma readModel_storeModel_eq (m : Model.model) :
  model_wf m ->
  readModel (storeModel m "") =
  Returns (build_model (Model.kernelType m) (Model.kernelHyperParam m) (Model.bias m)
             (Model.nData m) (Model.nElem m) (Model.maxdim m) (stored_svs m)).
Proof.
  intros Hwf; unfold readModel; rewrite words_storeModel; unfold model_tokens; cbn [Datatypes.app].
  rewrite next_int_show, next_count_show by lia; rewrite Nat2Z.id.
  rewrite <- (concat_singletons show_double).
  rewrite next_n_concat with (v := fun d => d)
    by (intros d r' Hd; simpl; apply next_double_show;
        exact (proj1 (Forall_forall _ _) (wf_hyper m Hwf) d Hd)).
  rewrite map_id; cbn [Datatypes.app].
  rewrite next_double_show by exact (wf_bias m Hwf).
  rewrite next_count_show by exact (wf_nData m Hwf).
  rewrite !next_int_show.
  rewrite <- (app_nil_r (List.concat _)).
  rewrite <- (length_seq (Z.to_nat (Model.nData m)) 0) at 1.
  rewrite next_n_concat with (v := fun i => (Model.sv_feats m i, Model.sv_weight m i)).
  - rewrite Z2Nat.id by exact (wf_nData m Hwf); reflexivity.
  - intros i r' Hi; unfold sv_tokens; rewrite <- app_assoc; simpl.
    apply next_sv_tokens.
    + apply (proj1 (Forall_forall _ _) (wf_feats m Hwf)); unfold Model.svs.
      apply in_map, Hi.
    + apply (proj1 (Forall_forall _ _) (wf_weight_vals m Hwf)); unfold Model.sv_weight.
      apply nth_In; rewrite (wf_weights m Hwf); apply in_seq in Hi; lia.
Qed.

Lemma storeModel_ext (m1 m2 : Model.model) (Output : string) :
  Model.kernelType m1 = Model.kernelType m2 ->
  Model.kernelHyperParam m1 = Model.kernelHyperParam m2 ->
  Model.bias m1 = Model.bias m2 -> Model.nData m1 = Model.nData m2 ->
  Model.nElem m1 = Model.nElem m2 -> Model.maxdim m1 = Model.maxdim m2 ->
  Model.weights m1 = Model.weights m2 -> Model.svs m1 = Model.svs m2 ->
  storeModel m1 Output = storeModel m2 Output.
Proof.
  intros Hk Hh Hb Hn He Hm Hw Hs; unfold storeModel.
  rewrite Hk, Hh, Hb, Hn, He, Hm; do 8 f_equal; f_equal.
  apply map_ext_in; intros i Hi; unfold sv_line, Model.sv_weight; rewrite Hw.
  unfold Model.svs in Hs; rewrite Hn in Hs.
  assert (E : nth_error (map (Model.sv_feats m1) (seq 0 (Z.to_nat (Model.nData m2)))) i
              = nth_error (map (Model.sv_feats m2) (seq 0 (Z.to_nat (Model.nData m2)))) i)
    by (rewrite Hs; reflexivity).
  apply in_seq in Hi.
  rewrite !nth_error_map, (nth_error_nth' _ 0) in E by (rewrite length_seq; lia).
  rewrite seq_nth in E by lia; simpl in E; injection E as E; rewrite E; reflexivity.
Qed.

Lemma build_model_fields (m : Model.model) :
  model_wf m ->
  let m' := build_model (Model.kernelType m) (Model.kernelHyperParam m) (Model.bias m)
              (Model.nData m) (Model.nElem m) (Model.maxdim m) (stored_svs m) in
  Model.kernelType m' = Model.kernelType m /\
  Model.kernelHyperParam m' = Model.kernelHyperParam m /\
  Model.bias m' = Model.bias m /\ Model.nData m' = Model.nData m /\
  Model.nElem m' = Model.nElem m /\ Model.maxdim m' = Model.maxdim m /\
  Model.weights m' = Model.weights m /\ Model.svs m' = Model.svs m /\
  Model.quadratic_value m' = map sq_norm (Model.svs m).
Proof.
  intros Hwf m'.
  assert (Hfst : map fst (stored_svs m) = Model.svs m)
    by (unfold stored_svs, Model.svs; rewrite map_map; reflexivity).
  assert (Hsnd : map snd (stored_svs m) = Model.weights m).
  { unfold stored_svs; rewrite map_map; simpl; unfold Model.sv_weight.
    rewrite <- (wf_weights m Hwf), (map_nth_seq (fun d => d)), map_id; reflexivity. }
  subst m'; unfold build_model.
  destruct (layout_feats (map fst (stored_svs m)) 0 [])
    as [Hl Hlen]; [|reflexivity|].
  { rewrite Hfst; eapply Forall_impl; [|exact (wf_feats m Hwf)].
    intros fs Hfs; eapply Forall_impl; [|exact Hfs]; intros f [Hf _]; exact Hf. }
  destruct (layout 0 (map fst (stored_svs m))) as [xs arena] eqn:El; simpl in Hl, Hlen |- *.
  repeat split; try reflexivity; try assumption.
  - rewrite Hfst in Hlen; unfold Model.svs in Hlen; rewrite length_map, length_seq in Hlen.
    transitivity (map (feats_at arena) xs); [|rewrite Hl; exact Hfst].
    unfold Model.svs, Model.sv_feats; simpl.
    rewrite <- Hlen, (map_nth_seq (feats_at arena)); reflexivity.
  - rewrite Hfst; reflexivity.
Qed.

(** C1.  Round trip of the model file: reading back what [storeModel] wrote
    gives a model equal to the stored one in every field that is not a cache
    (kernel, hyperparameters, bias, number of support vectors, weights, nElem,
    maxdim, the features of every support vector), whose norm cache is the
    stored one, and which [storeModel] writes out byte for byte as the
    original. *)
Theorem readModel_storeModel (m : Model.model) :
  model_wf m ->
  exists m', readModel (storeModel m "") = Returns m' /\
    Model.kernelType m' = Model.kernelType m /\
    Model.kernelHyperParam m' = Model.kernelHyperParam m /\
    Model.bias m' = Model.bias m /\ Model.nData m' = Model.nData m /\
    Model.weights m' = Model.weights m /\
    Model.nElem m' = Model.nElem m /\ Model.maxdim m' = Model.maxdim m /\
    Model.svs m' = Model.svs m /\
    Model.quadratic_value m' = Model.quadratic_value m /\
    storeModel m' "" = storeModel m "".
Proof.
  intros Hwf; eexists; split; [apply readModel_storeModel_eq, Hwf|].
  destruct (build_model_fields m Hwf) as (Hk & Hh & Hb & Hn & He & Hm & Hw & Hs & Hq).
  repeat split; try assumption.
  - rewrite Hq; symmetry; exact (wf_cache m Hwf).
  - apply storeModel_ext; assumption.
Qed.

Lemma readModel_storeModel_witness :
  model_wf example_model /\
  exists m', readModel (storeModel example_model "") = Returns m' /\
    Model.kernelType m' = Model.kernelType example_model /\
    Model.kernelHyperParam m' = Model.kernelHyperParam example_model /\
    Model.bias m' = Model.bias example_model /\ Model.nData m' = Model.nData example_model /\
    Model.weights m' = Model.weights example_model /\
    Model.nElem m' = Model.nElem example_model /\ Model.maxdim m' = Model.maxdim example_model /\
    Model.svs m' = Model.svs example_model /\
    Model.quadratic_value m' = Model.quadratic_value example_model /\
    storeModel m' "" = storeModel example_model "".
Proof.
  assert (H : model_wf example_model).
  { split; vm_compute; try reflexivity; try discriminate;
      repeat constructor; vm_compute; try reflexivity. }
  split; [exact H | apply (readModel_storeModel example_model H)].
Defined.

(** C6.  [storeModel] appends to the stream, and the record it writes is, token
    by token: the kernel type code, the number of hyperparameters and their
    values, the bias, the number of support vectors, nElem, maxdim, then for
    every support vector its feature tokens [index:value] followed by its
    weight; no other token (no tag, no field name) is written. *)
Theorem storeModel_field_order (m : Model.model) (Output : string) :
  storeModel m Output = (Output ++ storeModel m "")%string /\
  words (storeModel m "") =
    [show_int (Model.kernelType m);
     show_int (Z.of_nat (List.length (Model.kernelHyperParam m)))]
    ++ map show_double (Model.kernelHyperParam m)
    ++ [show_double (Model.bias m); show_int (Model.nData m);
        show_int (Model.nElem m); show_int (Model.maxdim m)]
    ++ List.concat (map (fun i => map encodeToken (Model.sv_feats m i)
                                  ++ [show_double (Model.sv_weight m i)])
                        (seq 0 (Z.to_nat (Model.nData m)))).
Proof.
  split; [reflexivity|].
  rewrite words_storeModel; reflexivity.
Qed.

(** ** The loader *)

Lemma layout_snoc (ss : list (list gp_sample)) (fs : list gp_sample) (off : nat) :
  layout off (ss ++ [fs]) =
  (fst (layout off ss) ++ [off + List.length (snd (layout off ss))],
   snd (layout off ss) ++ fs ++ [sentinel]).
Proof.
  revert off; induction ss as [|fs0 ss IH]; intros off; simpl.
  - rewrite Nat.add_0_r; reflexivity.
  - rewrite IH; destruct (layout (off + List.length fs0 + 1) ss) as [xs ar]; simpl.
    rewrite length_app, <- app_assoc; simpl.
    replace (off + (List.length fs0 + S (List.length ar)))
      with (off + List.length fs0 + 1 + List.length ar) by lia; reflexivity.
Qed.

Lemma fold_right_max_nonneg (l : list Z) : (0 <= fold_right Z.max 0%Z l)%Z.
Proof. induction l; simpl; lia. Qed.

Lemma fold_right_max_base (l : list Z) (a : Z) :
  (0 <= a)%Z -> fold_right Z.max a l = Z.max (fold_right Z.max 0%Z l) a.
Proof. intros Ha; induction l; simpl; lia. Qed.

Lemma fold_left_max (l : list Z) (a : Z) : fold_left Z.max l a = fold_right Z.max a l.
Proof.
  revert a; induction l as [|z l IH]; intros a; simpl; [reflexivity|].
  rewrite IH; clear IH; induction l; simpl; lia.
Qed.

Lemma max_index_snoc (ss : list (list gp_sample)) (fs : list gp_sample) :
  fold_left Z.max (map index fs) (max_index ss) = max_index (ss ++ [fs]).
Proof.
  unfold max_index; rewrite fold_left_max, concat_app, map_app, fold_right_app; simpl.
  rewrite app_nil_r.
  rewrite (fold_right_max_base (map index fs) (fold_right Z.max 0%Z (map index (List.concat ss))))
    by apply fold_right_max_nonneg.
  rewrite (fold_right_max_base (map index (List.concat ss)) (fold_right Z.max 0%Z (map index fs)))
    by apply fold_right_max_nonneg.
  lia.
Qed.

Lemma add_sample_state (lab : option double) (fs : list gp_sample)
  (ss : list (list gp_sample)) (ys : list double) (b : nat) (h : heap) :
  fst (add_sample lab fs (state_of ss ys b) h)
  = state_of (ss ++ [fs]) (ys ++ label_list lab) (next_block h).
Proof.
  unfold add_sample, state_of; simpl.
  rewrite layout_snoc, max_index_snoc; reflexivity.
Qed.

Lemma decode_all_pos (ts : list string) (fs : list gp_sample) :
  decode_all ts = Some fs -> Forall pos_index fs.
Proof.
  revert fs; induction ts as [|t ts IH]; simpl; intros fs H.
  - injection H as <-; constructor.
  - destruct (decodeToken t) as [f|] eqn:Ht; [|discriminate].
    destruct (decode_all ts) as [fs'|]; [|discriminate]; injection H as <-.
    constructor; [|apply IH; reflexivity].
    unfold decodeToken in Ht; destruct (split_on ":" t) as [a [b'|]]; [|discriminate].
    destruct (parse_int a) as [i|]; [|discriminate].
    destruct (parse_double b') as [v|]; [|discriminate].
    destruct (Z.ltb_spec 0 i); [|discriminate]; injection Ht as <-; exact H.
Qed.

Lemma parse_sample_pos (labeled : bool) (line : string) lab fs :
  blank line = false -> parse_sample labeled line = Some (lab, fs) ->
  Forall pos_index fs /\ List.length (label_list lab) = (if labeled then 1 else 0).
Proof.
  unfold blank, parse_sample; destruct (words line) as [|t ts]; [discriminate|]; intros _.
  destruct labeled.
  - destruct (parse_double t) as [v|]; [|discriminate].
    destruct (decode_all ts) as [fs'|] eqn:E; [|discriminate]; intros [= <- <-].
    split; [exact (decode_all_pos _ _ E) | reflexivity].
  - destruct (decode_all (t :: ts)) as [fs'|] eqn:E; [|discriminate]; intros [= <- <-].
    split; [exact (decode_all_pos _ _ E) | reflexivity].
Qed.

Lemma load_lines_content (labeled : bool) (ls : list string)
  (ss : list (list gp_sample)) (ys : list double) (b : nat) (h : heap) :
  match load_lines labeled ls (state_of ss ys b) h with
  | (None, st, _) =>
      exists ss' ys' b', st = state_of (ss ++ ss') (ys ++ ys') b' /\
        Forall (Forall pos_index) ss' /\ List.length ss' = nonblank_count ls /\
        List.length ys' = (if labeled then List.length ss' else 0)
  | (Some e, _, _) => e = FormatError
  end.
Proof.
  revert ss ys b h; induction ls as [|line rest IH]; intros ss ys b h;
    cbn -[add_sample nonblank_count].
  - exists [], [], b; rewrite !app_nil_r; repeat split; try constructor.
    destruct labeled; reflexivity.
  - unfold nonblank_count; simpl filter.
    destruct (blank line) eqn:Hb; simpl negb; cbn iota.
    + apply IH.
    + destruct (parse_sample labeled line) as [[lab fs]|] eqn:Hp; [|reflexivity].
      destruct (parse_sample_pos labeled line lab fs Hb Hp) as [Hpos Hlab].
      pose proof (add_sample_state lab fs ss ys b h) as Hst.
      destruct (add_sample lab fs (state_of ss ys b) h) as [st' h'].
      simpl in Hst; subst st'.
      specialize (IH (ss ++ [fs]) (ys ++ label_list lab) (next_block h) h').
      destruct (load_lines labeled rest _ h') as [[[e|] st] h''].
      * exact IH.
      * destruct IH as (ss' & ys' & b' & Est & Hss' & Hlen & Hys).
        exists (fs :: ss'), (label_list lab ++ ys'), b'.
        rewrite Est, <- !app_assoc; simpl; repeat split.
        -- constructor; assumption.
        -- unfold nonblank_count in Hlen; rewrite Hlen; reflexivity.
        -- rewrite length_app, Hlab, Hys; destruct labeled; simpl; lia.
Qed.

Lemma remove_fresh (x : nat) (l : list nat) :
  ~ In x l -> remove Nat.eq_dec x (x :: l) = l.
Proof. intros H; rewrite remove_cons; apply notin_remove, H. Qed.

Lemma fresh_not_in (h : heap) : heap_wf h -> ~ In (next_block h) (live h).
Proof.
  intros Hwf Hin; unfold heap_wf in Hwf; rewrite Forall_forall in Hwf.
  specialize (Hwf _ Hin); lia.
Qed.

(** The arena block is the only block [load_lines] takes or gives back. *)
Lemma load_lines_heap (labeled : bool) (ls : list string) (st : load_state)
  (h : heap) (L : list nat) :
  live h = ls_block st :: L -> ~ In (ls_block st) L -> heap_wf h ->
  let '(_, st', h') := load_lines labeled ls st h in
  live h' = ls_block st' :: L /\ ~ In (ls_block st') L /\ heap_wf h'.
Proof.
  revert st h; induction ls as [|line rest IH]; intros st h Hl Hn Hwf; simpl;
    [auto|].
  destruct (blank line); [apply IH; assumption|].
  destruct (parse_sample labeled line) as [[lab fs]|]; [|auto].
  unfold add_sample; simpl; apply IH; simpl.
  - rewrite Hl; simpl.
    destruct (Nat.eq_dec (ls_block st) (next_block h)) as [E|_].
    + exfalso; apply (fresh_not_in h Hwf); rewrite Hl, E; left; reflexivity.
    + destruct (Nat.eq_dec (ls_block st) (ls_block st)) as [_|C]; [|congruence].
      rewrite notin_remove by exact Hn; reflexivity.
  - intros Hin; apply (fresh_not_in h Hwf); rewrite Hl; right; exact Hin.
  - unfold heap_wf in *; cbn [live next_block free]; simpl next_block.
    apply Forall_forall; intros y Hy; apply in_remove in Hy as [Hy _].
    destruct Hy as [<-|Hy]; [lia|].
    rewrite Forall_forall in Hwf; specialize (Hwf y Hy); lia.
Qed.

Lemma read_dataset_success (labeled : bool) (fs : filesystem) (filename txt : string)
  (h h' : heap) (d : Dataset.gp_dataset) :
  files fs filename = Some txt ->
  read_dataset labeled fs filename h = (Returns d, h') ->
  exists ss ys,
    Forall (Forall pos_index) ss /\ List.length ss = nonblank_count (lines txt) /\
    List.length ys = (if labeled then List.length ss else 0) /\
    d = Dataset.mk_gp_dataset (if labeled then 1 else 0)%Z 1%Z (max_index ss) ys
          (fst (layout 0 ss))
          (map (fun off => sq_norm (feats_at (snd (layout 0 ss)) off)) (fst (layout 0 ss)))
          (snd (layout 0 ss)).
Proof.
  intros Hf; unfold read_dataset; rewrite Hf.
  set (ls := lines txt).
  destruct labeled; cbn -[load_lines ls];
  match goal with
  | |- context [load_lines ?lb ls (mk_load_state [] [] [] 0%Z ?ba) ?h3] =>
      pose proof (load_lines_content lb ls [] [] ba h3) as Hc;
      change (mk_load_state [] [] [] 0%Z ba) with (state_of [] [] ba);
      destruct (load_lines lb ls (state_of [] [] ba) h3) as [[[e|] st'] h4]; [discriminate|]
  end;
  intros [= <- _]; destruct Hc as (ss & ys & b' & -> & Hss & Hlen & Hys);
  exists ss, ys; repeat split; assumption.
Qed.

Lemma decode_all_none (ts : list string) (t : string) :
  In t ts -> decodeToken t = None -> decode_all ts = None.
Proof.
  induction ts as [|t' ts IH]; simpl; [contradiction|]; intros [<-|Hin] Ht.
  - rewrite Ht; reflexivity.
  - rewrite IH by assumption; destruct (decodeToken t'); reflexivity.
Qed.

Lemma parse_sample_malformed (labeled : bool) (line t : string) :
  In t (feature_tokens labeled line) -> decodeToken t = None ->
  blank line = false /\ parse_sample labeled line = None.
Proof.
  unfold feature_tokens, blank, parse_sample; intros Hin Ht.
  destruct (words line) as [|t0 ts]; [destruct labeled; contradiction|]; split; [reflexivity|].
  destruct labeled; simpl in Hin.
  - rewrite (decode_all_none ts t Hin Ht); destruct (parse_double t0); reflexivity.
  - rewrite (decode_all_none (t0 :: ts) t Hin Ht); reflexivity.
Qed.

Lemma load_lines_malformed (labeled : bool) (ls : list string) (line : string)
  (st : load_state) (h : heap) :
  In line ls -> blank line = false -> parse_sample labeled line = None ->
  fst (fst (load_lines labeled ls st h)) = Some FormatError.
Proof.
  revert st h; induction ls as [|l0 rest IH]; intros st h; simpl; [contradiction|].
  intros [<-|Hin] Hb Hp.
  - rewrite Hb, Hp; reflexivity.
  - destruct (blank l0); [apply IH; assumption|].
    destruct (parse_sample labeled l0) as [[lab fs]|]; [|reflexivity].
    destruct (add_sample lab fs st h); apply IH; assumption.
Qed.

Lemma heap_wf_lt (h : heap) (b : nat) : heap_wf h -> In b (live h) -> b < next_block h.
Proof. intros Hwf Hin; unfold heap_wf in Hwf; rewrite Forall_forall in Hwf; auto. Qed.

(** C4.  A malformed feature token anywhere in the file ([1:abc], say) makes
    [readTrainFile] / [readUnlabeledFile] report a [FormatError]: no dataset
    is returned, and every block allocated during the attempt is released
    (the live blocks after the call are those before it). *)
Theorem read_dataset_malformed (labeled : bool) (fs : filesystem)
  (filename txt line t : string) (h : heap) :
  heap_wf h -> files fs filename = Some txt ->
  In line (lines txt) -> In t (feature_tokens labeled line) -> decodeToken t = None ->
  fst (read_dataset labeled fs filename h) = Aborts FormatError /\
  live (snd (read_dataset labeled fs filename h)) = live h.
Proof.
  intros Hwf Hf Hl Ht Hd; unfold read_dataset; rewrite Hf.
  destruct (parse_sample_malformed labeled line t Ht Hd) as [Hb Hp].
  set (ls := lines txt) in *.
  assert (Hnx : ~ In (next_block h) (live h)) by (apply fresh_not_in, Hwf).
  assert (Hnx1 : ~ In (S (next_block h)) (live h))
    by (intros Hin; apply heap_wf_lt in Hin; [lia | exact Hwf]).
  assert (Hnx2 : ~ In (S (S (next_block h))) (live h))
    by (intros Hin; apply heap_wf_lt in Hin; [lia | exact Hwf]).
  destruct labeled; cbn -[load_lines ls];
  match goal with
  | |- context [load_lines ?lb ls ?st0 ?h3] =>
      pose proof (load_lines_malformed lb ls line st0 h3 Hl Hb Hp) as Hm;
      assert (Hn3 : ~ In (ls_block st0) (tl (live h3)))
        by (simpl; intros Hin; repeat (destruct Hin as [Hin|Hin]; [lia|]);
            first [exact (Hnx1 Hin) | exact (Hnx2 Hin)]);
      assert (Hw3 : heap_wf h3)
        by (unfold heap_wf; simpl; repeat (apply Forall_cons; [lia|]);
            eapply Forall_impl; [|exact Hwf]; simpl; intros; lia);
      pose proof (load_lines_heap lb ls st0 h3 (tl (live h3)) eq_refl Hn3 Hw3) as Hh;
      destruct (load_lines lb ls st0 h3) as [[r st'] h4]; simpl in Hm; subst r
  end.
  all: destruct Hh as (Hlive & Hnot & _).
  all: split; [reflexivity|]; unfold free_opt, free; cbn [live]; rewrite Hlive;
    cbn [tl live] in Hnot |- *; rewrite remove_fresh by exact Hnot.
  - rewrite remove_fresh by (intros [E|E]; [lia|auto]).
    apply remove_fresh, Hnx.
  - apply remove_fresh, Hnx.
Qed.

Lemma read_dataset_malformed_witness :
  (fst (read_dataset false example_fs "bad.txt" (mk_heap [] 0)) = Aborts FormatError /\
   live (snd (read_dataset false example_fs "bad.txt" (mk_heap [] 0))) = []) /\
  (fst (read_dataset false example_fs "sign.txt" (mk_heap [5] 6)) = Aborts FormatError /\
   live (snd (read_dataset false example_fs "sign.txt" (mk_heap [5] 6))) = [5]).
Proof.
  split.
  - apply (read_dataset_malformed false example_fs "bad.txt" "1:abc
" "1:abc" "1:abc" (mk_heap [] 0)).
    + constructor.
    + reflexivity.
    + vm_compute; left; reflexivity.
    + vm_compute; left; reflexivity.
    + vm_compute; reflexivity.
  - apply (read_dataset_malformed false example_fs "sign.txt" "1:+-5
" "1:+-5" "1:+-5" (mk_heap [5] 6)).
    + repeat constructor.
    + reflexivity.
    + vm_compute; left; reflexivity.
    + vm_compute; left; reflexivity.
    + vm_compute; reflexivity.
Defined.

(** ** Norm caches *)

Lemma decodeToken_pos (t : string) (f : gp_sample) : decodeToken t = Some f -> pos_index f.
Proof.
  unfold decodeToken; destruct (split_on ":" t) as [a [b'|]]; [|discriminate].
  destruct (parse_int a) as [i|]; [|discriminate].
  destruct (parse_double b') as [v|]; [|discriminate].
  destruct (Z.ltb_spec 0 i); [|discriminate]; intros [= <-]; exact H.
Qed.

Lemma next_sv_pos (ts : list string) fs w r :
  next_sv ts = Some ((fs, w), r) -> Forall pos_index fs.
Proof.
  revert fs w r; induction ts as [|t ts IH]; simpl; intros fs w r H; [discriminate|].
  destruct (has_colon t).
  - destruct (decodeToken t) as [f|] eqn:Ef; [|discriminate H].
    destruct (next_sv ts) as [[[fs' w'] r']|] eqn:En; [|discriminate H].
    injection H as <- <- <-.
    constructor; [exact (decodeToken_pos _ _ Ef) | exact (IH _ _ _ eq_refl)].
  - destruct (parse_double t); [|discriminate H]; injection H as <- <- <-; constructor.
Qed.

Lemma next_n_spec {A} (P : A -> Prop) (p : parser A) (n : nat) ts l r :
  (forall ts a r, p ts = Some (a, r) -> P a) ->
  next_n n p ts = Some (l, r) -> Forall P l /\ List.length l = n.
Proof.
  intros Hp; revert ts l r; induction n as [|n IH]; simpl; intros ts l r H.
  - injection H as <- <-; split; [constructor | reflexivity].
  - destruct (p ts) as [[a r1]|] eqn:E; [|discriminate H].
    destruct (next_n n p r1) as [[l' r']|] eqn:E2; [|discriminate H].
    injection H as <- <-; destruct (IH _ _ _ E2) as [Hf Hl].
    split; [constructor; [exact (Hp _ _ _ E) | exact Hf] | simpl; congruence].
Qed.

(** Whatever [readModel] returns was built by [build_model] from support
    vectors whose features all carry a positive index. *)
Lemma readModel_success (Input : string) (m : Model.model) :
  readModel Input = Returns m ->
  exists k hs b n ne md svs,
    Forall (Forall pos_index) (map fst svs) /\ List.length svs = n /\
    m = build_model k hs b (Z.of_nat n) ne md svs.
Proof.
  unfold readModel.
  destruct (next_int (words Input)) as [[k ts1]|]; [|intros H; discriminate H].
  destruct (next_count ts1) as [[nh ts2]|]; [|intros H; discriminate H].
  destruct (next_n nh next_double ts2) as [[hs ts3]|]; [|intros H; discriminate H].
  destruct (next_double ts3) as [[b ts4]|]; [|intros H; discriminate H].
  destruct (next_count ts4) as [[n ts5]|]; [|intros H; discriminate H].
  destruct (next_int ts5) as [[ne ts6]|]; [|intros H; discriminate H].
  destruct (next_int ts6) as [[md ts7]|]; [|intros H; discriminate H].
  destruct (next_n n next_sv ts7) as [[svs [|t r]]|] eqn:E;
    try (intros H; discriminate H).
  intros [= <-].
  destruct (next_n_spec (fun sv => Forall pos_index (fst sv)) next_sv n ts7 svs [])
    as [Hf Hl]; [intros ts [fs w] r H; exact (next_sv_pos ts fs w r H) | exact E |].
  exists k, hs, b, n, ne, md, svs; split; [|split; [exact Hl | reflexivity]].
  apply Forall_map, Hf.
Qed.

Lemma build_model_svs k hs b (n : nat) ne md svs :
  Forall (Forall pos_index) (map fst svs) -> List.length svs = n ->
  let m := build_model k hs b (Z.of_nat n) ne md svs in
  Model.svs m = map fst svs /\ Model.quadratic_value m = map sq_norm (map fst svs) /\
  Model.maxdim m = md.
Proof.
  intros Hp Hn m; subst m; unfold build_model.
  destruct (layout_feats (map fst svs) 0 [] Hp eq_refl) as [Hl Hlen].
  destruct (layout 0 (map fst svs)) as [xs arena] eqn:El; simpl in Hl, Hlen |- *.
  split; [|split; reflexivity].
  unfold Model.svs, Model.sv_feats; simpl; rewrite Nat2Z.id.
  rewrite length_map in Hlen; rewrite <- Hn, <- Hlen, (map_nth_seq (feats_at arena)).
  exact Hl.
Qed.

(** C2.  In every dataset the loader returns (labeled or not) and in every
    model [readModel] returns, the norm cache [quadratic_value] is, index by
    index, the sum of the squared feature values of the corresponding
    sample or support vector: the cache is a function of the loaded features
    alone, whatever else the file holds. *)
Theorem quadratic_value_recomputed :
  (forall labeled fs filename h d h',
     read_dataset labeled fs filename h = (Returns d, h') ->
     Dataset.quadratic_value d = map sq_norm (Dataset.samples d)) /\
  (forall Input m, readModel Input = Returns m ->
     Model.quadratic_value m = map sq_norm (Model.svs m)).
Proof.
  split.
  - intros labeled fs filename h d h' H.
    destruct (files fs filename) as [txt|] eqn:Hf.
    + destruct (read_dataset_success labeled fs filename txt h h' d Hf H)
        as (ss & ys & _ & _ & _ & ->).
      unfold Dataset.samples; simpl; rewrite map_map; reflexivity.
    + unfold read_dataset in H; rewrite Hf in H; discriminate H.
  - intros Input m H.
    destruct (readModel_success Input m H) as (k & hs & b & n & ne & md & svs & Hp & Hn & ->).
    destruct (build_model_svs k hs b n ne md svs Hp Hn) as (Hs & Hq & _).
    rewrite Hq, Hs; reflexivity.
Qed.

Lemma quadratic_value_recomputed_witness :
  match readTrainFile example_fs "train.txt"%string (mk_heap [] 0) with
  | (Returns d, _) => Dataset.quadratic_value d = map sq_norm (Dataset.samples d)
  | _ => False
  end /\
  match readModel (storeModel example_model ""%string) with
  | Returns m => Model.quadratic_value m = map sq_norm (Model.svs m)
  | _ => False
  end.
Proof.
  split.
  - destruct (readTrainFile example_fs "train.txt"%string (mk_heap [] 0)) as [[d|e] h'] eqn:E.
    + exact (proj1 quadratic_value_recomputed true example_fs "train.txt"%string (mk_heap [] 0) d h' E).
    + vm_compute in E; discriminate E.
  - destruct (readModel (storeModel example_model ""%string)) as [m|e] eqn:E.
    + exact (proj2 quadratic_value_recomputed _ m E).
    + vm_compute in E; discriminate E.
Defined.

(** ** [maxdim] *)

Lemma max_index_empty (ss : list (list gp_sample)) :
  Forall (fun fs => fs = []) ss -> max_index ss = 0%Z.
Proof.
  unfold max_index; induction 1 as [|fs ss -> _ IH]; [reflexivity|]; exact IH.
Qed.

Lemma read_dataset_samples (labeled : bool) (fs : filesystem) (filename : string)
  (h h' : heap) (d : Dataset.gp_dataset) :
  read_dataset labeled fs filename h = (Returns d, h') ->
  exists txt ss ys, files fs filename = Some txt /\
    Dataset.samples d = ss /\ Forall (Forall pos_index) ss /\
    List.length ss = nonblank_count (lines txt) /\
    List.length ys = (if labeled then List.length ss else 0) /\
    d = Dataset.mk_gp_dataset (if labeled then 1 else 0)%Z 1%Z (max_index ss) ys
          (fst (layout 0 ss))
          (map (fun off => sq_norm (feats_at (snd (layout 0 ss)) off)) (fst (layout 0 ss)))
          (snd (layout 0 ss)).
Proof.
  intros H; destruct (files fs filename) as [txt|] eqn:Hf;
    [|unfold read_dataset in H; rewrite Hf in H; discriminate H].
  destruct (read_dataset_success labeled fs filename txt h h' d Hf H)
    as (ss & ys & Hp & Hn & Hy & Hd).
  exists txt, ss, ys; repeat split; try assumption.
  rewrite Hd; unfold Dataset.samples; simpl.
  exact (proj1 (layout_feats ss 0 [] Hp eq_refl)).
Qed.

Lemma next_int_token (ts : list string) (z : Z) (r : list string) :
  next_int ts = Some (z, r) -> exists t, ts = t :: r /\ parse_int t = Some z.
Proof.
  destruct ts as [|t ts]; simpl; [discriminate|].
  destruct (parse_int t) as [z'|] eqn:E; [|discriminate]; intros [= <- <-]; eauto.
Qed.

Lemma next_count_token (ts : list string) (n : nat) (r : list string) :
  next_count ts = Some (n, r) -> exists t, ts = t :: r.
Proof.
  unfold next_count; destruct (next_int ts) as [[z r']|] eqn:E; [|discriminate].
  destruct (0 <=? z)%Z; [|discriminate]; intros [= _ <-].
  destruct (next_int_token _ _ _ E) as (t & -> & _); eauto.
Qed.

Lemma next_double_token (ts : list string) (d : double) (r : list string) :
  next_double ts = Some (d, r) -> exists t, ts = t :: r.
Proof.
  destruct ts as [|t ts]; simpl; [discriminate|].
  destruct (parse_double t); [|discriminate]; intros [= _ <-]; eauto.
Qed.

Lemma next_n_double_tokens (n : nat) (ts : list string) (l : list double) (r : list string) :
  next_n n next_double ts = Some (l, r) ->
  exists pre, ts = pre ++ r /\ List.length pre = n /\ List.length l = n.
Proof.
  revert ts l r; induction n as [|n IH]; simpl; intros ts l r H.
  - injection H as <- <-; exists []; auto.
  - destruct (next_double ts) as [[d r1]|] eqn:E; [|discriminate].
    destruct (next_n n next_double r1) as [[l' r']|] eqn:E2; [|discriminate].
    injection H as <- <-.
    destruct (next_double_token _ _ _ E) as (t & ->).
    destruct (IH _ _ _ E2) as (pre & -> & Hp & Hl).
    exists (t :: pre); simpl; auto.
Qed.

(** The [maxdim] of a model [readModel] returns is the integer written as
    the field after nElem: the token that follows the kernel type, the
    hyperparameter count and values, the bias, nData and nElem. *)
Lemma readModel_maxdim_token (Input : string) (m : Model.model) :
  readModel Input = Returns m ->
  exists pre t post, words Input = pre ++ t :: post /\
    List.length pre = 5 + List.length (Model.kernelHyperParam m) /\
    parse_int t = Some (Model.maxdim m).
Proof.
  unfold readModel.
  destruct (next_int (words Input)) as [[k ts1]|] eqn:E1; [|intros H; discriminate H].
  destruct (next_count ts1) as [[nh ts2]|] eqn:E2; [|intros H; discriminate H].
  destruct (next_n nh next_double ts2) as [[hs ts3]|] eqn:E3; [|intros H; discriminate H].
  destruct (next_double ts3) as [[b ts4]|] eqn:E4; [|intros H; discriminate H].
  destruct (next_count ts4) as [[n ts5]|] eqn:E5; [|intros H; discriminate H].
  destruct (next_int ts5) as [[ne ts6]|] eqn:E6; [|intros H; discriminate H].
  destruct (next_int ts6) as [[md ts7]|] eqn:E7; [|intros H; discriminate H].
  destruct (next_n n next_sv ts7) as [[svs [|t r]]|]; try (intros H; discriminate H).
  intros [= <-].
  destruct (next_int_token _ _ _ E1) as (t1 & W1 & _).
  destruct (next_count_token _ _ _ E2) as (t2 & W2).
  destruct (next_n_double_tokens _ _ _ _ E3) as (ph & W3 & Hph & Hhs).
  destruct (next_double_token _ _ _ E4) as (t4 & W4).
  destruct (next_count_token _ _ _ E5) as (t5 & W5).
  destruct (next_int_token _ _ _ E6) as (t6 & W6 & _).
  destruct (next_int_token _ _ _ E7) as (t7 & W7 & H7).
  exists (t1 :: t2 :: ph ++ [t4; t5; t6]), t7, ts7.
  unfold build_model; destruct (layout 0 (map fst svs)); simpl.
  split; [|split; [|exact H7]].
  - rewrite W1, W2, W3, W4, W5, W6, W7, <- app_assoc; reflexivity.
  - rewrite length_app; simpl; lia.
Qed.

(** C3 (counterexample).  [readModel] takes [maxdim] as the file states it:
    a file whose single support vector has the feature [1:5] but whose
    [maxdim] field says 7 loads into a model with [maxdim = 7] while the
    largest feature index of its support vectors is 1. *)
Lemma readModel_maxdim_counterexample :
  match readModel hand_model_file with
  | Returns m => Model.maxdim m = 7%Z /\ max_index (Model.svs m) = 1%Z
  | Aborts _ => False
  end.
Proof. vm_compute; split; reflexivity. Qed.

(** C3 (amended).  In every dataset the loader returns, [maxdim] is the
    largest feature index over all samples, and 0 when no sample has a
    feature (in particular for a file with no sample).  [readModel] does not
    recompute [maxdim]: for every file it accepts, the model's [maxdim] is
    the integer the file writes in the [maxdim] field (the token after the
    kernel type, the hyperparameters, the bias, nData and nElem), so the
    model's [maxdim] is the largest index of its support vectors exactly
    when that field says so.  Reading back a model that [storeModel] wrote
    keeps its [maxdim], so a model whose [maxdim] is the largest index of its
    support vectors reads back as one where it still is. *)
Theorem maxdim_max_index :
  (forall labeled fs filename h d h',
     read_dataset labeled fs filename h = (Returns d, h') ->
     Dataset.maxdim d = max_index (Dataset.samples d)) /\
  (forall ss, Forall (fun fs => fs = []) ss -> max_index ss = 0%Z) /\
  (forall Input m, readModel Input = Returns m ->
     exists pre t post, words Input = pre ++ t :: post /\
       List.length pre = 5 + List.length (Model.kernelHyperParam m) /\
       parse_int t = Some (Model.maxdim m) /\
       (Model.maxdim m = max_index (Model.svs m) <->
        parse_int t = Some (max_index (Model.svs m)))) /\
  (forall m, model_wf m ->
     exists m', readModel (storeModel m "") = Returns m' /\
       Model.maxdim m' = Model.maxdim m /\
       (Model.maxdim m = max_index (Model.svs m) ->
        Model.maxdim m' = max_index (Model.svs m'))).
Proof.
  split; [|split; [|split]].
  - intros labeled fs filename h d h' H.
    destruct (read_dataset_samples labeled fs filename h h' d H)
      as (txt & ss & ys & _ & Hs & _ & _ & _ & Hd).
    rewrite Hs, Hd; reflexivity.
  - exact max_index_empty.
  - intros Input m H.
    destruct (readModel_maxdim_token Input m H) as (pre & t & post & Hw & Hl & Ht).
    exists pre, t, post; repeat split; try assumption.
    + intros E; rewrite Ht, E; reflexivity.
    + rewrite Ht; intros E; injection E as E; exact E.
  - intros m Hwf; eexists; split; [apply readModel_storeModel_eq, Hwf|].
    destruct (build_model_fields m Hwf) as (_ & _ & _ & _ & _ & Hm & _ & Hs & _).
    split; [exact Hm|]; rewrite Hm, Hs; intros E; exact E.
Qed.

Lemma maxdim_max_index_witness :
  match readTrainFile example_fs "train.txt"%string (mk_heap [] 0) with
  | (Returns d, _) => Dataset.maxdim d = max_index (Dataset.samples d)
  | _ => False
  end /\
  max_index [[]; []] = 0%Z /\
  match readModel hand_model_file with
  | Returns m =>
      exists pre t post, words hand_model_file = pre ++ t :: post /\
        List.length pre = 5 + List.length (Model.kernelHyperParam m) /\
        parse_int t = Some (Model.maxdim m) /\
        (Model.maxdim m = max_index (Model.svs m) <->
         parse_int t = Some (max_index (Model.svs m)))
  | Aborts _ => False
  end /\
  (model_wf example_model /\
   exists m', readModel (storeModel example_model ""%string) = Returns m' /\
     Model.maxdim m' = Model.maxdim example_model /\
     Model.maxdim m' = max_index (Model.svs m')).
Proof.
  split; [|split; [|split]].
  - destruct (readTrainFile example_fs "train.txt"%string (mk_heap [] 0)) as [[d|e] h'] eqn:E.
    + exact (proj1 maxdim_max_index true example_fs "train.txt"%string (mk_heap [] 0) d h' E).
    + vm_compute in E; discriminate E.
  - apply (proj1 (proj2 maxdim_max_index)); repeat constructor.
  - destruct (readModel hand_model_file) as [m|e] eqn:E.
    + exact (proj1 (proj2 (proj2 maxdim_max_index)) hand_model_file m E).
    + vm_compute in E; discriminate E.
  - assert (Hwf : model_wf example_model).
    { split; vm_compute; try reflexivity; try discriminate;
        repeat constructor; vm_compute; try reflexivity. }
    split; [exact Hwf|].
    destruct (proj2 (proj2 (proj2 maxdim_max_index)) example_model Hwf) as (m' & E & Hm & Hi).
    exists m'; split; [exact E|]; split; [exact Hm|].
    apply Hi; vm_compute; reflexivity.
Defined.

(** ** Labels *)

(** C5.  On a file it reads successfully, [readTrainFile] returns a dataset
    marked labeled ([l = 1]) with one sample per non-blank line and one label
    per sample; [readUnlabeledFile] returns one marked unlabeled ([l = 0]),
    with one sample per non-blank line and no label. *)
Theorem readTrainFile_labeled (fs : filesystem) (filename txt : string)
  (h h' : heap) (d : Dataset.gp_dataset) :
  files fs filename = Some txt ->
  (readTrainFile fs filename h = (Returns d, h') ->
   Dataset.l d = 1%Z /\ List.length (Dataset.x d) = nonblank_count (lines txt) /\
   List.length (Dataset.y d) = List.length (Dataset.x d)) /\
  (readUnlabeledFile fs filename h = (Returns d, h') ->
   Dataset.l d = 0%Z /\ List.length (Dataset.x d) = nonblank_count (lines txt) /\
   Dataset.y d = []).
Proof.
  intros Hf; split; intros H.
  - destruct (read_dataset_success true fs filename txt h h' d Hf H)
      as (ss & ys & Hp & Hn & Hy & ->); simpl.
    rewrite (proj2 (layout_feats ss 0 [] Hp eq_refl)); repeat split; congruence.
  - destruct (read_dataset_success false fs filename txt h h' d Hf H)
      as (ss & ys & Hp & Hn & Hy & ->); simpl.
    rewrite (proj2 (layout_feats ss 0 [] Hp eq_refl)); repeat split; [exact Hn|].
    destruct ys; [reflexivity | discriminate Hy].
Qed.

Lemma readTrainFile_labeled_witness :
  match readTrainFile example_fs "train.txt"%string (mk_heap [] 0) with
  | (Returns d, _) =>
      Dataset.l d = 1%Z /\ List.length (Dataset.x d) = 2 /\
      List.length (Dataset.y d) = List.length (Dataset.x d)
  | _ => False
  end.
Proof.
  destruct (readTrainFile example_fs "train.txt"%string (mk_heap [] 0)) as [[d|e] h'] eqn:E.
  - destruct (readTrainFile_labeled example_fs "train.txt"%string
                "+1 1:5 3:2
-1 2:4
"%string (mk_heap [] 0) h' d eq_refl) as [H _].
    exact (H E).
  - vm_compute in E; discriminate E.
Defined.

(** ** Output file *)

Lemma dbl_not_newline : forall a, dbl_char a = true -> not_char newline a = true.
Proof. ascii_cases. Qed.

Lemma lines_aux_line (w rest : string) :
  all_chars (not_char newline) w = true ->
  lines_aux (w ++ String newline rest) = (w, lines rest).
Proof.
  induction w as [|a w IH]; simpl; intros H.
  - unfold lines; destruct (lines_aux rest); reflexivity.
  - apply andb_prop in H as [Ha Hw]; rewrite IH by exact Hw.
    unfold not_char in Ha; destruct (Ascii.eqb a newline); [discriminate Ha | reflexivity].
Qed.

Lemma lines_output (vs : list double) :
  lines (fold_right String.append EmptyString
           (map (fun v => show_double v ++ String newline EmptyString)%string vs))
  = map show_double vs ++ [EmptyString].
Proof.
  induction vs as [|v vs IH]; [reflexivity|]; simpl.
  unfold lines at 1; rewrite sappend_assoc; simpl.
  rewrite lines_aux_line, IH; [reflexivity|].
  exact (all_chars_impl _ _ _ dbl_not_newline (double_chars v)).
Qed.

Lemma map_nth_seq_firstn {A B} (g : A -> B) (l : list A) (d : A) (n : nat) :
  n <= List.length l ->
  map (fun i => g (nth i l d)) (seq 0 n) = map g (firstn n l).
Proof.
  revert n; induction l as [|a l IH]; intros n Hn; simpl in Hn.
  - replace n with 0 by lia; reflexivity.
  - destruct n as [|n]; [reflexivity|]; simpl; f_equal.
    rewrite <- seq_shift, map_map; apply IH; lia.
Qed.

(** C7.  When the file can be created and [0 <= size <= length predictions],
    [writeOutput] succeeds; the file then holds exactly the first [size]
    predictions, in order, each printed on a line of its own and nothing
    else: split at its newlines it is those [size] lines followed by the
    empty rest after the last newline.  No other file changes and the file
    is closed again (the count of open files is the one before the call). *)
Theorem writeOutput_lines (fs : filesystem) (fileoutput : string)
  (predictions : list double) (size : Z) :
  can_create fs fileoutput = true -> (0 <= size)%Z ->
  Z.to_nat size <= List.length predictions ->
  let '(r, fs') := writeOutput fs fileoutput predictions size in
  let text := String.concat ""
                (map (fun v => show_double v ++ String newline EmptyString)%string
                     (firstn (Z.to_nat size) predictions)) in
  r = Returns tt /\ files fs' fileoutput = Some text /\
  lines text = map show_double (firstn (Z.to_nat size) predictions) ++ [EmptyString] /\
  List.length (firstn (Z.to_nat size) predictions) = Z.to_nat size /\
  (forall n, n <> fileoutput -> files fs' n = files fs n) /\
  open_handles fs' = open_handles fs.
Proof.
  intros Hc Hs Hn; unfold writeOutput; rewrite Hc; simpl.
  rewrite String.eqb_refl.
  rewrite (map_nth_seq_firstn (fun v => show_double v ++ String newline EmptyString)%string
             predictions Model.zero_double _ Hn).
  repeat split.
  - rewrite concat_empty_sep; apply lines_output.
  - rewrite length_firstn; lia.
  - intros n Hne; apply String.eqb_neq in Hne; rewrite Hne; reflexivity.
Qed.

Lemma writeOutput_lines_witness :
  let p := [mkDouble (Pos (D0 Nil)) (D5 Nil); mkDouble (Neg (D1 Nil)) (D2 Nil)] in
  let fs := mk_fs (fun _ => None) (fun _ => true) 0 in
  let '(r, fs') := writeOutput fs "out.txt"%string p 2 in
  let text := String.concat ""
                (map (fun v => show_double v ++ String newline EmptyString)%string
                     (firstn 2 p)) in
  r = Returns tt /\ files fs' "out.txt"%string = Some text /\
  lines text = map show_double (firstn 2 p) ++ [EmptyString] /\
  List.length (firstn 2 p) = 2 /\
  (forall n, n <> "out.txt"%string -> files fs' n = files fs n) /\
  open_handles fs' = open_handles fs.
Proof.
  exact (writeOutput_lines (mk_fs (fun _ => None) (fun _ => true) 0) "out.txt"%string
           [mkDouble (Pos (D0 Nil)) (D5 Nil); mkDouble (Neg (D1 Nil)) (D2 Nil)] 2
           eq_refl ltac:(lia) ltac:(vm_compute; lia)).
Defined.

(** ** The interface of [IOFunctions.h] *)

(** C8.  None of the operations that read or write files has a channel for
    reporting a failure: [readTrainFile] and [readUnlabeledFile] return a
    [gp_dataset] by value (whose fields are the seven data fields), the other
    three return [void], and no parameter of any of them is a pointer to an
    integer or a pointer to a pointer. *)
Theorem no_error_channel :
  map Header.ret Header.io_functions =
    [Header.CStruct "gp_dataset"; Header.CStruct "gp_dataset";
     Header.CVoid; Header.CVoid; Header.CVoid] /\
  Forall (fun f => Header.status_return (Header.ret f) = false /\
                   Forall (fun p => Header.status_out_param (Header.ptype p) = false)
                          (Header.params f))
         Header.io_functions /\
  Header.field_names Header.gp_dataset =
    ["l"; "sparse"; "maxdim"; "y"; "x"; "quadratic_value"; "features"]%string /\
  Header.field_names Header.model =
    ["kernelType"; "kernelHyperParam"; "nData"; "weights"; "bias"; "x";
     "quadratic_value"; "nElem"; "maxdim"; "features"]%string.
Proof.
  split; [reflexivity|]; split; [|split; reflexivity].
  repeat (apply Forall_cons; [split; [reflexivity | repeat constructor] |]); constructor.
Qed.

(** ** Where a sample's features are *)

Lemma layout_first (off : nat) (ss : list (list gp_sample)) :
  ss <> [] -> nth 0 (fst (layout off ss)) 0 = off.
Proof.
  destruct ss as [|fs r]; [contradiction|]; intros _; simpl.
  destruct (layout (off + List.length fs + 1) r); reflexivity.
Qed.

Lemma layout_adjacent (ss : list (list gp_sample)) (off i : nat) :
  S i < List.length ss ->
  nth (S i) (fst (layout off ss)) 0 =
    nth i (fst (layout off ss)) 0 + List.length (nth i ss []) + 1.
Proof.
  revert off i; induction ss as [|fs r IH]; intros off i Hi; simpl in Hi; [lia|].
  simpl; destruct (layout (off + List.length fs + 1) r) as [xs ar] eqn:El; simpl.
  destruct i as [|j].
  - pose proof (layout_first (off + List.length fs + 1) r) as H; rewrite El in H.
    apply H; intros ->; simpl in Hi; lia.
  - specialize (IH (off + List.length fs + 1) j); rewrite El in IH; apply IH; lia.
Qed.

(** C9.  In both [gp_dataset] and [model] a sample is reached through the
    pointer array [x] ([gp_sample **]) into the shared [features] array; no
    field of either struct is a per-sample count or a span (every field is a
    scalar, an array of doubles, the feature array or the pointer array), no
    struct of the header is a span, and a feature is an [index] and a
    [value] only.  In a loaded dataset the number of features of sample [i]
    is thus recovered from the arena: it is what lies between [x[i]] and the
    next sentinel, and [x[i+1] - x[i] - 1]. *)
Theorem features_by_pointer :
  Header.field_type Header.gp_dataset "x" =
    Some (Header.CPtr (Header.CPtr (Header.CStruct "gp_sample"))) /\
  Header.field_type Header.model "x" =
    Some (Header.CPtr (Header.CPtr (Header.CStruct "gp_sample"))) /\
  Header.field_type Header.gp_dataset "features" =
    Some (Header.CPtr (Header.CStruct "gp_sample")) /\
  Header.field_type Header.model "features" =
    Some (Header.CPtr (Header.CStruct "gp_sample")) /\
  forallb (fun s => forallb (fun fd =>
             existsb (Header.ctype_eqb (Header.ftype fd))
               [Header.CInt; Header.CDouble; Header.CPtr Header.CDouble;
                Header.CPtr (Header.CStruct "gp_sample");
                Header.CPtr (Header.CPtr (Header.CStruct "gp_sample"))])
             (Header.sfields s)) [Header.gp_dataset; Header.model] = true /\
  map Header.sname Header.structs =
    ["properties"; "predictProperties"; "model"; "gp_sample"; "gp_dataset"]%string /\
  Header.sfields Header.gp_sample =
    [Header.mk_field "index" Header.CInt; Header.mk_field "value" Header.CDouble] /\
  (forall labeled fs filename h d h',
     read_dataset labeled fs filename h = (Returns d, h') ->
     Dataset.samples d = map (fun off => take_until_sentinel (skipn off (Dataset.features d)))
                             (Dataset.x d) /\
     forall i, S i < List.length (Dataset.x d) ->
       nth (S i) (Dataset.x d) 0 =
         nth i (Dataset.x d) 0 + List.length (nth i (Dataset.samples d) []) + 1).
Proof.
  do 7 (split; [reflexivity|]).
  - intros labeled fs filename h d h' H.
    destruct (read_dataset_samples labeled fs filename h h' d H)
      as (txt & ss & ys & _ & Hs & Hp & _ & _ & Hd).
    split; [reflexivity|].
    rewrite Hs; intros i Hi; rewrite Hd in Hi |- *; simpl in Hi |- *.
    rewrite (proj2 (layout_feats ss 0 [] Hp eq_refl)) in Hi.
    apply layout_adjacent, Hi.
Qed.

Lemma features_by_pointer_witness :
  match readTrainFile example_fs "train.txt"%string (mk_heap [] 0) with
  | (Returns d, _) =>
      Dataset.samples d = map (fun off => take_until_sentinel (skipn off (Dataset.features d)))
                              (Dataset.x d) /\
      nth 1 (Dataset.x d) 0 = nth 0 (Dataset.x d) 0 + List.length (nth 0 (Dataset.samples d) []) + 1
  | _ => False
  end.
Proof.
  destruct (readTrainFile example_fs "train.txt"%string (mk_heap [] 0)) as [[d|e] h'] eqn:E.
  - destruct (proj2 (proj2 (proj2 (proj2 (proj2 (proj2 (proj2 features_by_pointer)))))) true
                example_fs "train.txt"%string (mk_heap [] 0) d h' E) as [Hs Ha].
    split; [exact Hs | apply Ha].
    vm_compute in E; injection E as <- _; vm_compute; lia.
  - vm_compute in E; discriminate E.
Defined.

(** ** Releasing a dataset or a model *)

Lemma lookup_in (f : string) (v : CMem.value) (vs : list (string * CMem.value)) :
  CMem.lookup f vs = Some v -> In (f, v) vs.
Proof.
  induction vs as [|[g w] vs IH]; simpl; [discriminate|].
  destruct (String.eqb_spec g f) as [->|_]; [intros [= ->]; left; reflexivity|].
  intros H; right; apply IH, H.
Qed.

Lemma set_field_in (f g : string) (v w : CMem.value) (vs : list (string * CMem.value)) :
  In (g, w) (CMem.set_field f v vs) -> In (g, w) vs \/ w = v.
Proof.
  unfold CMem.set_field; rewrite in_map_iff; intros [[g' w'] [E Hin]]; simpl in E.
  destruct (String.eqb g' f); injection E as <- <-; [right | left]; auto.
Qed.

Lemma upd_other (m : CMem.mem) (k k' : nat) (c : option CMem.cell) :
  k' <> k -> CMem.upd m k c k' = m k'.
Proof. intros H; unfold CMem.upd; apply Nat.eqb_neq in H; rewrite H; reflexivity. Qed.

Lemma upd_same (m : CMem.mem) (k : nat) (c : option CMem.cell) : CMem.upd m k c k = c.
Proof. unfold CMem.upd; rewrite Nat.eqb_refl; reflexivity. Qed.

Lemma exec_stmt_inv (a frame : nat) (vs : list (string * CMem.value)) (m : CMem.mem)
  (s : CMem.stmt) :
  frame <> a ->
  match s with CMem.SetField _ (CMem.VPtr (Some _)) => False | _ => True end ->
  call_inv a frame vs m -> call_inv a frame vs (CMem.exec_stmt frame m s).
Proof.
  intros Hfa Hs [Ha Hf]; unfold CMem.exec_stmt.
  destruct Hf as [Hf|[Hf|(vs' & Hf & Hp)]];
    [rewrite Hf; destruct s; split; auto | rewrite Hf; destruct s; split; auto|].
  rewrite Hf; destruct s as [f|f v].
  - destruct (CMem.lookup f vs') as [[z|d|[b|]]|] eqn:El; try (split; auto; right; right; eauto).
    assert (Hb : b <> a) by exact (Hp f b (lookup_in _ _ _ El)).
    split; [rewrite upd_other by congruence; exact Ha|].
    destruct (Nat.eq_dec frame b) as [->|Hne]; [left; apply upd_same|].
    rewrite upd_other by exact Hne; right; right; eauto.
  - split; [rewrite upd_other by congruence; exact Ha|].
    right; right; exists (CMem.set_field f v vs'); split; [apply upd_same|].
    intros g b Hin; destruct (set_field_in f g v _ vs' Hin) as [H | E]; [exact (Hp g b H)|].
    subst v; simpl in Hs; contradiction.
Qed.

Lemma fold_exec_inv (a frame : nat) (vs : list (string * CMem.value)) (body : list CMem.stmt)
  (m : CMem.mem) :
  frame <> a -> CMem.no_pointer_store body = true ->
  call_inv a frame vs m -> call_inv a frame vs (fold_left (CMem.exec_stmt frame) body m).
Proof.
  intros Hfa; revert m; induction body as [|s body IH]; intros m Hb Hi; [exact Hi|].
  simpl in Hb |- *; apply andb_prop in Hb as [Hs Hb].
  apply IH; [exact Hb|]; apply exec_stmt_inv; [exact Hfa| |exact Hi].
  destruct s as [f|f [z|d|[b|]]]; try exact I; discriminate Hs.
Qed.

(** C10.  [freeDataset] and [freeModel] take their record by value: the call
    copies the caller's record into the callee's frame, and whatever the
    body frees or clears, it does so through that copy.  For the two release
    bodies, and for every body that stores no non-null pointer into its
    parameter, the caller's record (at [a], none of its pointers pointing to
    it) holds after the call exactly the fields, pointers included, it held
    before; the callee's copy is gone. *)
Theorem release_keeps_caller_record (m : CMem.mem) (a frame : nat)
  (vs : list (string * CMem.value)) :
  m a = Some (CMem.SCell vs) -> frame <> a ->
  (forall f b, In (f, CMem.VPtr (Some b)) vs -> b <> a) ->
  CMem.no_pointer_store CMem.freeDataset_body = true /\
  CMem.no_pointer_store CMem.freeModel_body = true /\
  (forall body, CMem.no_pointer_store body = true ->
     CMem.call body m a frame a = m a /\ CMem.call body m a frame frame = None).
Proof.
  intros Ha Hfa Hp; split; [reflexivity|]; split; [reflexivity|].
  intros body Hb; unfold CMem.call; rewrite Ha.
  destruct (fold_exec_inv a frame vs body (CMem.upd m frame (Some (CMem.SCell vs))) Hfa Hb)
    as [Ha' _].
  { split; [rewrite upd_other by congruence; exact Ha|].
    right; right; exists vs; split; [apply upd_same | exact Hp]. }
  split; [rewrite upd_other by congruence; rewrite Ha'; reflexivity | apply upd_same].
Qed.

Lemma release_keeps_caller_record_witness :
  CMem.call CMem.freeDataset_body example_mem 0 9 0 = example_mem 0.
Proof.
  refine (proj1 (proj2 (proj2 (release_keeps_caller_record example_mem 0 9 _ eq_refl
            ltac:(lia) _)) CMem.freeDataset_body eq_refl)).
  intros f b Hin; simpl in Hin.
  repeat (destruct Hin as [E|Hin]; [inversion E; lia|]); contradiction.
Defined.
